(** * Connector namespace service of the fleet manager

  A shallow embedding of
  [internal/connector/internal/services/connector_namespaces.go]
  and of [config.ConnectorsConfig] with its catalog loader.

  The relational store is an explicit value ([gorm.Store]) threaded
  through every call; a query of the ORM is a function on that value.
  Time is passed in ([now]) where the code calls [time.Now()], and the
  random source where it calls [rand.Intn]. *)

From Stdlib Require Import ZArith List Bool Lia Permutation.
From Stdlib Require OrderedTypeEx.
From stdpp Require Import base gmap strings sorting.
Import ListNotations.

Local Open Scope string_scope.
Local Open Scope Z_scope.

(** Instants ([time.Time]) and durations ([time.Duration]), both counted in
  nanoseconds. *)
Definition Time := Z.
Definition Duration := Z.

(* ===================================================================== *)
(** ** pkg/errors: the kinds of service error *)
(* ===================================================================== *)

Module errors.

Inductive ServiceErrorCode :=
| ErrorGeneral
| ErrorNotFound
| ErrorUnauthorized
| ErrorInsufficientQuota
| ErrorFailedToCheckQuota
| ErrorFailedToCreate
| ErrorFailedToUpdate
| ErrorFailedToDelete.

(** A [*errors.ServiceError]; the formatted reason text is not kept. *)
Record ServiceError := { Code : ServiceErrorCode }.

Definition GeneralError := {| Code := ErrorGeneral |}.
Definition NotFound := {| Code := ErrorNotFound |}.
Definition Unauthorized := {| Code := ErrorUnauthorized |}.
Definition InsufficientQuotaError := {| Code := ErrorInsufficientQuota |}.
Definition FailedToCheckQuota := {| Code := ErrorFailedToCheckQuota |}.

#[export] Instance ServiceErrorCode_eq_dec : EqDecision ServiceErrorCode.
Proof. solve_decision. Defined.

#[export] Instance ServiceError_eq_dec : EqDecision ServiceError.
Proof. solve_decision. Defined.

End errors.

(* ===================================================================== *)
(** ** internal/connector/internal/api/dbapi: the persisted records *)
(* ===================================================================== *)

Module dbapi.

(** Modelled from the spec: the phase and desired-state constants of
    package [dbapi], which is not part of the sources at hand.  They are
    string-typed enumerations; the spec names their values. *)
Definition ConnectorNamespacePhaseDeleting : string := "deleting".
Definition ConnectorStatusPhaseDeleting : string := "deleting".
Definition ConnectorDeleted : string := "deleted".
Definition ConnectorUnassigned : string := "unassigned".

(** [ConnectorNamespaceAnnotation]: no soft-deletion marker. *)
Record ConnectorNamespaceAnnotation := {
  ann_NamespaceId : string;
  ann_Key : string;
  ann_Value : string
}.

Record ConnectorTenantUser := { tu_ID : string }.
Record ConnectorTenantOrganisation := { to_ID : string }.

Record ConnectorNamespaceStatus := {
  nss_Phase : string;
  nss_ConnectorsDeployed : Z
}.

(** [ConnectorNamespace]: the columns the service reads or writes, and
    the three associations filled by [Preload]. *)
Record ConnectorNamespace := {
  ns_ID : string;
  ns_DeletedAt : option Time;
  ns_Name : string;
  ns_ClusterId : string;
  ns_Owner : string;
  ns_Version : Z;
  ns_Expiration : option Time;
  ns_TenantUserId : option string;
  ns_TenantOrganisationId : option string;
  ns_Status : ConnectorNamespaceStatus;
  ns_Annotations : list ConnectorNamespaceAnnotation;
  ns_TenantUser : option ConnectorTenantUser;
  ns_TenantOrganisation : option ConnectorTenantOrganisation
}.

Record ConnectorCluster := {
  cl_ID : string;
  cl_DeletedAt : option Time;
  cl_Owner : string;
  cl_OrganisationId : string;
  cl_Status_Phase : string
}.

Record Connector := {
  c_ID : string;
  c_DeletedAt : option Time;
  c_NamespaceId : option string;
  c_DesiredState : string
}.

Record ConnectorStatus := {
  cs_ID : string;
  cs_DeletedAt : option Time;
  cs_NamespaceID : option string;
  cs_Phase : string
}.

(** Modelled from the spec: section 3 keeps a [ConnectorDeploymentStatus]
    per deployment, one or several to a connector, and package [dbapi] is
    not among the sources.  A row has an id of its own, and
    [ds_ConnectorID] names the connector its deployment belongs to; the
    service reads and writes only the id, the marker and the phase. *)
Record ConnectorDeploymentStatus := {
  ds_ID : string;
  ds_DeletedAt : option Time;
  ds_Phase : string;
  ds_ConnectorID : string
}.

(** Field updates, written out (Go assigns to one field of a struct). *)
Definition ns_with_Phase (p : string) (ns : ConnectorNamespace) : ConnectorNamespace :=
  {| ns_ID := ns_ID ns; ns_DeletedAt := ns_DeletedAt ns; ns_Name := ns_Name ns;
     ns_ClusterId := ns_ClusterId ns; ns_Owner := ns_Owner ns;
     ns_Version := ns_Version ns; ns_Expiration := ns_Expiration ns;
     ns_TenantUserId := ns_TenantUserId ns;
     ns_TenantOrganisationId := ns_TenantOrganisationId ns;
     ns_Status := {| nss_Phase := p;
                     nss_ConnectorsDeployed := nss_ConnectorsDeployed (ns_Status ns) |};
     ns_Annotations := ns_Annotations ns; ns_TenantUser := ns_TenantUser ns;
     ns_TenantOrganisation := ns_TenantOrganisation ns |}.

Definition ns_with_DeletedAt (d : option Time) (ns : ConnectorNamespace) : ConnectorNamespace :=
  {| ns_ID := ns_ID ns; ns_DeletedAt := d; ns_Name := ns_Name ns;
     ns_ClusterId := ns_ClusterId ns; ns_Owner := ns_Owner ns;
     ns_Version := ns_Version ns; ns_Expiration := ns_Expiration ns;
     ns_TenantUserId := ns_TenantUserId ns;
     ns_TenantOrganisationId := ns_TenantOrganisationId ns;
     ns_Status := ns_Status ns;
     ns_Annotations := ns_Annotations ns; ns_TenantUser := ns_TenantUser ns;
     ns_TenantOrganisation := ns_TenantOrganisation ns |}.

Definition ns_with_ClusterId (cid : string) (ns : ConnectorNamespace) : ConnectorNamespace :=
  {| ns_ID := ns_ID ns; ns_DeletedAt := ns_DeletedAt ns; ns_Name := ns_Name ns;
     ns_ClusterId := cid; ns_Owner := ns_Owner ns;
     ns_Version := ns_Version ns; ns_Expiration := ns_Expiration ns;
     ns_TenantUserId := ns_TenantUserId ns;
     ns_TenantOrganisationId := ns_TenantOrganisationId ns;
     ns_Status := ns_Status ns;
     ns_Annotations := ns_Annotations ns; ns_TenantUser := ns_TenantUser ns;
     ns_TenantOrganisation := ns_TenantOrganisation ns |}.

Definition ns_with_Expiration (e : option Time) (ns : ConnectorNamespace) : ConnectorNamespace :=
  {| ns_ID := ns_ID ns; ns_DeletedAt := ns_DeletedAt ns; ns_Name := ns_Name ns;
     ns_ClusterId := ns_ClusterId ns; ns_Owner := ns_Owner ns;
     ns_Version := ns_Version ns; ns_Expiration := e;
     ns_TenantUserId := ns_TenantUserId ns;
     ns_TenantOrganisationId := ns_TenantOrganisationId ns;
     ns_Status := ns_Status ns;
     ns_Annotations := ns_Annotations ns; ns_TenantUser := ns_TenantUser ns;
     ns_TenantOrganisation := ns_TenantOrganisation ns |}.

Definition ns_with_Annotations (a : list ConnectorNamespaceAnnotation)
    (ns : ConnectorNamespace) : ConnectorNamespace :=
  {| ns_ID := ns_ID ns; ns_DeletedAt := ns_DeletedAt ns; ns_Name := ns_Name ns;
     ns_ClusterId := ns_ClusterId ns; ns_Owner := ns_Owner ns;
     ns_Version := ns_Version ns; ns_Expiration := ns_Expiration ns;
     ns_TenantUserId := ns_TenantUserId ns;
     ns_TenantOrganisationId := ns_TenantOrganisationId ns;
     ns_Status := ns_Status ns;
     ns_Annotations := a; ns_TenantUser := ns_TenantUser ns;
     ns_TenantOrganisation := ns_TenantOrganisation ns |}.

Definition ns_with_Tenants (u : option ConnectorTenantUser)
    (o : option ConnectorTenantOrganisation) (ns : ConnectorNamespace) : ConnectorNamespace :=
  {| ns_ID := ns_ID ns; ns_DeletedAt := ns_DeletedAt ns; ns_Name := ns_Name ns;
     ns_ClusterId := ns_ClusterId ns; ns_Owner := ns_Owner ns;
     ns_Version := ns_Version ns; ns_Expiration := ns_Expiration ns;
     ns_TenantUserId := ns_TenantUserId ns;
     ns_TenantOrganisationId := ns_TenantOrganisationId ns;
     ns_Status := ns_Status ns;
     ns_Annotations := ns_Annotations ns; ns_TenantUser := u;
     ns_TenantOrganisation := o |}.

Definition ann_with_Value (v : string) (a : ConnectorNamespaceAnnotation) :=
  {| ann_NamespaceId := ann_NamespaceId a; ann_Key := ann_Key a; ann_Value := v |}.

Definition c_with_DesiredState (s : string) (c : Connector) : Connector :=
  {| c_ID := c_ID c; c_DeletedAt := c_DeletedAt c;
     c_NamespaceId := c_NamespaceId c; c_DesiredState := s |}.

Definition cs_with_Phase (p : string) (s : ConnectorStatus) : ConnectorStatus :=
  {| cs_ID := cs_ID s; cs_DeletedAt := cs_DeletedAt s;
     cs_NamespaceID := cs_NamespaceID s; cs_Phase := p |}.

Definition ds_with_Phase (p : string) (s : ConnectorDeploymentStatus) :=
  {| ds_ID := ds_ID s; ds_DeletedAt := ds_DeletedAt s; ds_Phase := p;
     ds_ConnectorID := ds_ConnectorID s |}.

(** The zero value of the struct, as [var resource dbapi.ConnectorNamespace]
    or a projection that selects only some columns leaves it. *)
Definition ns_zero : ConnectorNamespace :=
  {| ns_ID := ""; ns_DeletedAt := None; ns_Name := ""; ns_ClusterId := "";
     ns_Owner := ""; ns_Version := 0; ns_Expiration := None;
     ns_TenantUserId := None; ns_TenantOrganisationId := None;
     ns_Status := {| nss_Phase := ""; nss_ConnectorsDeployed := 0 |};
     ns_Annotations := []; ns_TenantUser := None; ns_TenantOrganisation := None |}.

End dbapi.
Export dbapi.

(* ===================================================================== *)
(** ** internal/connector/internal/config *)
(* ===================================================================== *)

Module config.

(** [ConnectorChannelConfig]; a value of [ShardMetadata] is kept as its
    JSON text. *)
Record ConnectorChannelConfig := {
  Revision : Z;
  ShardMetadata : gmap string string
}.

(** [public.ConnectorType] is not among the sources: its [Id], and its
    other fields by their JSON names. *)
Record ConnectorType := {
  Id : string;
  Fields : gmap string string
}.

Record ConnectorCatalogEntry := {
  Channels : gmap string ConnectorChannelConfig;
  ConnectorType_ : ConnectorType
}.

(** [ConnectorsConfig], as the struct is declared.  [AddFlags] binds
    [ConnectorDisableCascadeDelete] to the flag
    [connector-disable-cascade-delete], "Disable Connectors cascade delete
    when deleting Namespaces, sets Connectors to 'unassigned' state
    instead". *)
Record ConnectorsConfig := {
  ConnectorEvalDuration : Duration;
  ConnectorEvalOrganizations : list string;
  ConnectorNamespaceLifecycleAPI : bool;
  ConnectorDisableCascadeDelete : bool;
  ConnectorCatalogDirs : list string;
  CatalogEntries : list ConnectorCatalogEntry
}.

(** [NewConnectorsConfig] returns [&ConnectorsConfig{}]: every field zero,
    and [AddFlags] registers each flag with the field's value as default. *)
Definition NewConnectorsConfig : ConnectorsConfig :=
  {| ConnectorEvalDuration := 0;
     ConnectorEvalOrganizations := [];
     ConnectorNamespaceLifecycleAPI := false;
     ConnectorDisableCascadeDelete := false;
     ConnectorCatalogDirs := [];
     CatalogEntries := [] |}.

(** [NamespaceQuota]: [Connectors] is a signed Go integer that the service
    widens with [int64(...)], which keeps its value. *)
Record NamespaceQuota := { Connectors : Z }.

(** The zero value of [NamespaceQuota]. *)
Definition NamespaceQuota_zero : NamespaceQuota := {| Connectors := 0 |}.

(** [ConnectorsQuotaConfig]: its declaration is not among the sources, so
    the profile resolver [GetNamespaceQuota] (a name to a policy and a
    found flag) is a field to be supplied, as is the evaluation profile's
    name. *)
Record ConnectorsQuotaConfig := {
  EvalNamespaceQuotaProfile : string;
  GetNamespaceQuota : string -> NamespaceQuota * bool
}.

End config.
Export config.

(* ===================================================================== *)
(** ** The relational store behind [gorm.DB] *)
(* ===================================================================== *)

Module gorm.

(** The errors a statement can end with.  [ErrDriver] stands for any
    failure of the storage engine; the in-memory store below never raises
    it, so the branches of the service that only forward such a failure
    are written out but never taken. *)
Inductive Error := ErrRecordNotFound | ErrDriver.

(** One list of rows per table.  A list enumerates the rows in the order
    of the table's primary key. *)
Record Store := {
  connector_namespaces : list ConnectorNamespace;
  connector_namespace_annotations : list ConnectorNamespaceAnnotation;
  connector_tenant_users : list ConnectorTenantUser;
  connector_tenant_organisations : list ConnectorTenantOrganisation;
  connector_clusters : list ConnectorCluster;
  connectors : list Connector;
  connector_statuses : list ConnectorStatus;
  connector_deployment_statuses : list ConnectorDeploymentStatus
}.

Definition with_connector_namespaces (l : list ConnectorNamespace) (st : Store) : Store :=
  {| connector_namespaces := l;
     connector_namespace_annotations := connector_namespace_annotations st;
     connector_tenant_users := connector_tenant_users st;
     connector_tenant_organisations := connector_tenant_organisations st;
     connector_clusters := connector_clusters st;
     connectors := connectors st;
     connector_statuses := connector_statuses st;
     connector_deployment_statuses := connector_deployment_statuses st |}.

Definition with_connectors (l : list Connector) (st : Store) : Store :=
  {| connector_namespaces := connector_namespaces st;
     connector_namespace_annotations := connector_namespace_annotations st;
     connector_tenant_users := connector_tenant_users st;
     connector_tenant_organisations := connector_tenant_organisations st;
     connector_clusters := connector_clusters st;
     connectors := l;
     connector_statuses := connector_statuses st;
     connector_deployment_statuses := connector_deployment_statuses st |}.

Definition with_connector_statuses (l : list ConnectorStatus) (st : Store) : Store :=
  {| connector_namespaces := connector_namespaces st;
     connector_namespace_annotations := connector_namespace_annotations st;
     connector_tenant_users := connector_tenant_users st;
     connector_tenant_organisations := connector_tenant_organisations st;
     connector_clusters := connector_clusters st;
     connectors := connectors st;
     connector_statuses := l;
     connector_deployment_statuses := connector_deployment_statuses st |}.

Definition with_connector_deployment_statuses (l : list ConnectorDeploymentStatus)
    (st : Store) : Store :=
  {| connector_namespaces := connector_namespaces st;
     connector_namespace_annotations := connector_namespace_annotations st;
     connector_tenant_users := connector_tenant_users st;
     connector_tenant_organisations := connector_tenant_organisations st;
     connector_clusters := connector_clusters st;
     connectors := connectors st;
     connector_statuses := connector_statuses st;
     connector_deployment_statuses := l |}.

(** What the ORM knows of a model type: its table, and its soft-deletion
    marker when the struct embeds [db.Model] (a [gorm.DeletedAt] column).
    A model without the marker answers [None] for every row. *)
Class Schema (A : Type) := {
  table : Store -> list A;
  with_table : list A -> Store -> Store;
  deleted_at : A -> option Time;
  with_deleted_at : option Time -> A -> A
}.

#[export] Instance ConnectorNamespace_schema : Schema ConnectorNamespace :=
  {| table := connector_namespaces; with_table := with_connector_namespaces;
     deleted_at := ns_DeletedAt; with_deleted_at := ns_with_DeletedAt |}.

#[export] Instance Connector_schema : Schema Connector :=
  {| table := connectors; with_table := with_connectors;
     deleted_at := c_DeletedAt;
     with_deleted_at := fun d c =>
       {| c_ID := c_ID c; c_DeletedAt := d; c_NamespaceId := c_NamespaceId c;
          c_DesiredState := c_DesiredState c |} |}.

#[export] Instance ConnectorStatus_schema : Schema ConnectorStatus :=
  {| table := connector_statuses; with_table := with_connector_statuses;
     deleted_at := cs_DeletedAt;
     with_deleted_at := fun d s =>
       {| cs_ID := cs_ID s; cs_DeletedAt := d; cs_NamespaceID := cs_NamespaceID s;
          cs_Phase := cs_Phase s |} |}.

#[export] Instance ConnectorDeploymentStatus_schema : Schema ConnectorDeploymentStatus :=
  {| table := connector_deployment_statuses;
     with_table := with_connector_deployment_statuses;
     deleted_at := ds_DeletedAt;
     with_deleted_at := fun d s =>
       {| ds_ID := ds_ID s; ds_DeletedAt := d; ds_Phase := ds_Phase s;
          ds_ConnectorID := ds_ConnectorID s |} |}.

#[export] Instance ConnectorNamespaceAnnotation_schema : Schema ConnectorNamespaceAnnotation :=
  {| table := connector_namespace_annotations;
     with_table := fun l st =>
       {| connector_namespaces := connector_namespaces st;
          connector_namespace_annotations := l;
          connector_tenant_users := connector_tenant_users st;
          connector_tenant_organisations := connector_tenant_organisations st;
          connector_clusters := connector_clusters st;
          connectors := connectors st;
          connector_statuses := connector_statuses st;
          connector_deployment_statuses := connector_deployment_statuses st |};
     deleted_at := fun _ => None;
     with_deleted_at := fun _ a => a |}.

(** [IS NULL] on a nullable column. *)
Definition is_null {A} (o : option A) : bool :=
  match o with None => true | Some _ => false end.

(** [col IN ?] with a list of strings bound to the placeholder; an empty
    list is rendered [IN (NULL)] and matches no row. *)
Definition IN (x : string) (l : list string) : bool := existsb (String.eqb x) l.

(** [col IN ?] on a nullable column: NULL is in no list. *)
Definition IN_nullable (x : option string) (l : list string) : bool :=
  match x with Some v => IN v l | None => false end.

(** A value bound to a placeholder, by its SQL text. *)
Definition Value : Type := string.

(** A condition handed to [Where] as the SQL text of an expression, such
    as ["id = ?"] or ["1 = 1"] (a bare column name, which the ORM reads as
    a column to compare and not as an expression, is not one): the number
    of [?] placeholders of the text, and what the storage engine makes of
    the text once each placeholder is replaced by the values bound to it
    (one value, or the parenthesised list a slice is rendered as): a
    predicate on the rows, or nothing where it rejects the statement. *)
Record Condition (A : Type) := {
  placeholders : nat;
  denotes : list (list Value) -> option (A -> bool)
}.
Arguments placeholders {A} _.
Arguments denotes {A} _ _.

(** [db.Where(query, args...)]: the arguments fill the placeholders in
    order, a slice as the parenthesised list of its elements.  An argument
    left over is bound to the statement all the same, and a placeholder
    left over stays in its text: the driver rejects both when the
    statement runs. *)
Definition Where {A} (query : Condition A) (args : list (list Value))
    : Error + (A -> bool) :=
  if Nat.eqb (length args) (placeholders query)
  then match denotes query args with
       | Some cond => inr cond
       | None => inl ErrDriver
       end
  else inl ErrDriver.

(** The rows a statement built from a model sees: the ORM adds
    [deleted_at IS NULL] for a model with the marker. *)
Definition scoped {A} `{Schema A} (db : Store) : list A :=
  List.filter (fun r => is_null (deleted_at r)) (table db).

(** [db.Model(&A{}).Where(cond).Find(&dest)]. *)
Definition Find {A} `{Schema A} (cond : A -> bool) (db : Store) : Error + list A :=
  inr (List.filter cond (scoped db)).

(** [db.Where(cond).First(&dest)]: the first row in primary-key order, or
    [ErrRecordNotFound]. *)
Definition First {A} `{Schema A} (cond : A -> bool) (db : Store) : Error + A :=
  match List.filter cond (scoped db) with
  | [] => inl ErrRecordNotFound
  | r :: _ => inr r
  end.

(** [db.Model(&A{}).Where(cond).Count(&count)]. *)
Definition Count {A} `{Schema A} (cond : A -> bool) (db : Store) : Error + Z :=
  inr (Z.of_nat (length (List.filter cond (scoped db)))).

(** [db.Model(&A{}).Where(cond).Update(col, v)] and
    [db.Where(cond).Updates(&A{col: v})]: every visible row that satisfies
    [cond] gets the assignment [set]. *)
Definition Updates {A} `{Schema A} (cond : A -> bool) (set : A -> A) (db : Store)
    : Error + Store :=
  inr (with_table
         (List.map (fun r => if is_null (deleted_at r) && cond r then set r else r)
                   (table db)) db).

(** [db.Where(cond).Delete(&A{})] on a model with the marker: a soft
    delete, [UPDATE ... SET deleted_at = now] on the visible rows. *)
Definition Delete {A} `{Schema A} (cond : A -> bool) (now : Time) (db : Store)
    : Error + Store :=
  Updates cond (with_deleted_at (Some now)) db.

(** [db.Transaction(fc)]: the body's store is kept when it returns no
    error, and the store of before is restored when it returns one. *)
Definition Transaction {E R} (fc : Store -> R * option E * Store) (db : Store)
    : R * option E * Store :=
  match fc db with
  | (r, None, db') => (r, None, db')
  | (r, Some e, _) => (r, Some e, db)
  end.

End gorm.
Export gorm.

(* ===================================================================== *)
(** ** pkg/services/signalbus and pkg/db: notifications, post-commit hooks *)
(* ===================================================================== *)

Module signalbus.

(** The bus, seen through the topics [Notify] was called with, oldest
    first. *)
Definition SignalBus := list string.

Definition Notify (bus : SignalBus) (topic : string) : SignalBus := (bus ++ [topic])%list.

End signalbus.
Export signalbus.

Module db.

(** The part of [context.Context] the service touches: the callbacks
    registered on the transaction the request runs in. *)
Record Context := { postCommitActions : list (SignalBus -> SignalBus) }.

Definition background : Context := {| postCommitActions := [] |}.

(** Modelled from the spec: [db.AddPostCommitAction], of package [pkg/db]
    which is not among the sources.  The spec asks of it "a post-commit-hook
    mechanism that guarantees a scheduled callback runs once and only after
    commit": the callback joins the pending list of the transaction. *)
Definition AddPostCommitAction (ctx : Context) (f : SignalBus -> SignalBus)
    : Context * option gorm.Error :=
  ({| postCommitActions := (postCommitActions ctx ++ [f])%list |}, None).

(** Modelled from the spec: how the transaction of [pkg/db] ends.  On
    commit the pending callbacks run, each once, in the order they were
    registered; on rollback they are dropped. *)
Definition Commit (ctx : Context) (bus : SignalBus) : SignalBus :=
  fold_left (fun b f => f b) (postCommitActions ctx) bus.

Definition Rollback (ctx : Context) (bus : SignalBus) : SignalBus := bus.

End db.

(** Modelled from the spec: the error wrappers of [pkg/services], which is
    not among the sources.  Section 7 of the spec: an absent record is a
    [NotFoundError], any other failure of a read a [GeneralError], a failed
    write an [UpdateError] or [DeleteError]. *)
Module pkg_services.

Definition HandleGetError (err : gorm.Error) : errors.ServiceError :=
  match err with
  | ErrRecordNotFound => errors.NotFound
  | ErrDriver => errors.GeneralError
  end.

Definition HandleUpdateError (err : gorm.Error) : errors.ServiceError :=
  {| errors.Code := errors.ErrorFailedToUpdate |}.

Definition HandleDeleteError (err : gorm.Error + errors.ServiceError) : errors.ServiceError :=
  {| errors.Code := errors.ErrorFailedToDelete |}.

End pkg_services.

(* ===================================================================== *)
(** ** services: connectorNamespaceService *)
(* ===================================================================== *)

(** [fmt.Sprintf("/kafka_connector_clusters/%s/deployments", cid)]. *)
Definition deployments_topic (cid : string) : string :=
  "/kafka_connector_clusters/" +:+ cid +:+ "/deployments".

(** [rand.Intn(n)] for [n > 0]: some index below [n], picked by the state
    of the random source. *)
Definition Intn (seed : nat) (n : nat) : nat := Nat.modulo seed n.

Section services.

(** [config.AnnotationProfileKey], the reserved annotation key; its
    declaration is not among the sources. *)
Variable AnnotationProfileKey : string.

(** [k.connectorsConfig.ConnectorEnableUnassignedConnectors]: the service
    reads the cascade policy under this name ("set connectors' state to
    'unassigned' if it's supported, i.e. cascade delete is disabled"),
    and the struct declared among the sources has no field of that name
    (it declares [ConnectorDisableCascadeDelete]).  What the read returns
    for a configuration is a parameter. *)
Variable ConnectorEnableUnassignedConnectors : ConnectorsConfig -> bool.

Record connectorNamespaceService := {
  connectorsConfig : ConnectorsConfig;
  quotaConfig : ConnectorsQuotaConfig
}.

(** The loop of [SetEvalClusterId] over [request.Annotations]: the first
    annotation with the reserved key gets the value, and the loop breaks. *)
Fixpoint setProfileAnnotation (profile : string)
    (anns : list ConnectorNamespaceAnnotation)
    : list ConnectorNamespaceAnnotation * bool :=
  match anns with
  | [] => ([], false)
  | ann :: rest =>
      if String.eqb (ann_Key ann) AnnotationProfileKey then
        ((if negb (String.eqb (ann_Value ann) profile)
          then ann_with_Value profile ann else ann) :: rest, true)
      else
        let '(rest', found) := setProfileAnnotation profile rest in
        (ann :: rest', found)
  end.

(** [SELECT id FROM connector_clusters WHERE deleted_at is null AND
    organisation_id IN ?]. *)
Definition eval_cluster_ids (orgs : list string) (db : Store) : gorm.Error + list string :=
  inr (List.map cl_ID
         (List.filter (fun c => is_null (cl_DeletedAt c) && IN (cl_OrganisationId c) orgs)
                      (connector_clusters db))).

Definition SetEvalClusterId (k : connectorNamespaceService) (db : Store)
    (now : Time) (seed : nat) (request : ConnectorNamespace)
    : ConnectorNamespace * option errors.ServiceError :=
  match eval_cluster_ids (ConnectorEvalOrganizations (connectorsConfig k)) db with
  | inl err => (request, Some errors.Unauthorized)
  | inr availableClusters =>
      let numOrgClusters := length availableClusters in
      if Nat.eqb numOrgClusters 0 then (request, Some errors.Unauthorized)
      else
        let request :=
          if Nat.eqb numOrgClusters 1
          then ns_with_ClusterId (nth 0 availableClusters "") request
          else ns_with_ClusterId
                 (nth (Intn seed numOrgClusters) availableClusters "") request in
        (* also set expiration duration *)
        let expiry := now + ConnectorEvalDuration (connectorsConfig k) in
        let request := ns_with_Expiration (Some expiry) request in
        (* also set profile in annotations *)
        let profile := EvalNamespaceQuotaProfile (quotaConfig k) in
        let '(anns, found) := setProfileAnnotation profile (ns_Annotations request) in
        let request := ns_with_Annotations anns request in
        let request :=
          if negb found
          then ns_with_Annotations
                 (ns_Annotations request ++
                  [{| ann_NamespaceId := ns_ID request;
                      ann_Key := AnnotationProfileKey;
                      ann_Value := profile |}])%list request
          else request in
        (request, None)
  end.

(** The condition [First(result)] derives from [result] itself: the
    primary key when it is not the zero value, and no condition at all
    when it is. *)
Definition primary_key_cond (id : string) (ns : ConnectorNamespace) : bool :=
  if String.eqb id "" then true else String.eqb (ns_ID ns) id.

(** [Preload("Annotations")], [Preload("TenantUser")] and
    [Preload("TenantOrganisation")]. *)
Definition Preload (db : Store) (ns : ConnectorNamespace) : ConnectorNamespace :=
  ns_with_Tenants
    (match ns_TenantUserId ns with
     | Some u => List.find (fun t => String.eqb (tu_ID t) u) (connector_tenant_users db)
     | None => None
     end)
    (match ns_TenantOrganisationId ns with
     | Some o => List.find (fun t => String.eqb (to_ID t) o)
                           (connector_tenant_organisations db)
     | None => None
     end)
    (ns_with_Annotations
       (List.filter (fun a => String.eqb (ann_NamespaceId a) (ns_ID ns))
                    (connector_namespace_annotations db)) ns).

Definition Get (k : connectorNamespaceService) (db : Store) (namespaceID : string)
    : option ConnectorNamespace * option errors.ServiceError :=
  match First (primary_key_cond namespaceID) db with
  | inl err => (None, Some errors.GeneralError)
  | inr result => (Some (Preload db result), None)
  end.

(** [expiration < ?] on the nullable column. *)
Definition expired (now : Time) (ns : ConnectorNamespace) : bool :=
  match ns_Expiration ns with
  | Some t => t <? now
  | None => false
  end.

Definition GetExpiredNamespaceIds (k : connectorNamespaceService) (now : Time)
    (db : Store) : list string * option errors.ServiceError * Store :=
  match Find (expired now) db with
  | inl err => ([], Some (pkg_services.HandleGetError err), db)
  | inr rows =>
      let result := List.map ns_ID rows in
      (* update phase to 'deleting' for all expired namespaces *)
      match Updates (fun ns => IN (ns_ID ns) result)
                    (ns_with_Phase ConnectorNamespacePhaseDeleting) db with
      | inl err => ([], Some (pkg_services.HandleUpdateError err), db)
      | inr db' => (result, None, db')
      end
  end.

(** [Select("id", "cluster_id")]: the other fields of the destination
    stay zero. *)
Definition select_id_cluster_id (ns : ConnectorNamespace) : ConnectorNamespace :=
  ns_with_ClusterId (ns_ClusterId ns)
    {| ns_ID := ns_ID ns; ns_DeletedAt := None; ns_Name := ""; ns_ClusterId := "";
       ns_Owner := ""; ns_Version := 0; ns_Expiration := None;
       ns_TenantUserId := None; ns_TenantOrganisationId := None;
       ns_Status := ns_Status ns_zero; ns_Annotations := [];
       ns_TenantUser := None; ns_TenantOrganisation := None |}.

(** The callback handed to [db.AddPostCommitAction]: one [Notify] per key
    of the map [clusterIds]. *)
Definition notify_clusters (clusterIds : gset string) (bus : SignalBus) : SignalBus :=
  fold_left (fun b cid => Notify b (deployments_topic cid)) (elements clusterIds) bus.

(** [query] is taken as the text of a condition, the form in which its
    caller [Delete] hands it over (["connector_namespaces.id = ?"]). *)
Definition DeleteNamespaceAndConnectorDeployments (k : connectorNamespaceService)
    (ctx : db.Context) (dbConn : Store) (query : Condition ConnectorNamespace)
    (values : list Value)
    : bool * bool * option errors.ServiceError * db.Context * Store :=
  (* [Where(query, values)]: the slice [values] is handed over as one
     argument, not spread *)
  match (match Where query [values] with
         | inl err => inl err
         | inr cond => Find cond dbConn
         end) with
  | inl err => (false, false, Some (pkg_services.HandleGetError err), ctx, dbConn)
  | inr rows =>
      let namespaces := List.map select_id_cluster_id rows in
      (* no namespaces *)
      if Nat.eqb (length namespaces) 0 then (false, false, None, ctx, dbConn)
      else
        let namespaceIds := List.map ns_ID namespaces in
        let clusterIds : gset string := list_to_set (List.map ns_ClusterId namespaces) in
        (* Set namespace phase to "deleting" *)
        match Updates (fun ns => IN (ns_ID ns) namespaceIds)
                      (ns_with_Phase ConnectorNamespacePhaseDeleting) dbConn with
        | inl err => (false, false, Some (pkg_services.HandleUpdateError err), ctx, dbConn)
        | inr db1 =>
        (* get all connectors that are currently not being deleted *)
        match Find (fun c : Connector =>
                      IN_nullable (c_NamespaceId c) namespaceIds &&
                      negb (String.eqb (c_DesiredState c) ConnectorDeleted)) db1 with
        | inl err => (false, false, Some (pkg_services.HandleGetError err), ctx, db1)
        | inr crows =>
            let connectorIds := List.map c_ID crows in
            (* no connectors *)
            if Nat.eqb (length connectorIds) 0 then (true, false, None, ctx, db1)
            else
              (* set connectors' desired state to 'deleted' by default *)
              let connectorDesiredState :=
                if ConnectorEnableUnassignedConnectors (connectorsConfig k)
                then ConnectorUnassigned else ConnectorDeleted in
              match Updates (fun c : Connector =>
                               is_null (c_DeletedAt c) && IN (c_ID c) connectorIds)
                            (c_with_DesiredState connectorDesiredState) db1 with
              | inl err => (false, false, Some (pkg_services.HandleUpdateError err), ctx, db1)
              | inr db2 =>
              match Updates (fun s : ConnectorStatus =>
                               is_null (cs_DeletedAt s) && IN (cs_ID s) connectorIds)
                            (cs_with_Phase ConnectorStatusPhaseDeleting) db2 with
              | inl err => (false, false, Some (pkg_services.HandleUpdateError err), ctx, db2)
              | inr db3 =>
              (* mark all deployment statuses as "deleting" *)
              match Updates (fun s : ConnectorDeploymentStatus =>
                               is_null (ds_DeletedAt s) && IN (ds_ID s) connectorIds)
                            (ds_with_Phase ConnectorStatusPhaseDeleting) db3 with
              | inl err => (false, false, Some (pkg_services.HandleUpdateError err), ctx, db3)
              | inr db4 =>
                  (* notify deployment status update *)
                  let '(ctx', _) := db.AddPostCommitAction ctx (notify_clusters clusterIds) in
                  (true, true, None, ctx', db4)
              end end end
        end end
  end.

(** The grouped left join of [ReconcileDeletingNamespaces]:
    [count(namespace_id)] counts, for the namespace of the group, the rows
    of [connector_statuses] that are not soft-deleted and point to it.
    [connector_namespaces.id] is the primary key, so a group holds one
    namespace row. *)
Definition live_status_count (db : Store) (ns : ConnectorNamespace) : nat :=
  length (List.filter
            (fun s => match cs_NamespaceID s with
                      | Some n => String.eqb n (ns_ID ns)
                      | None => false
                      end && is_null (cs_DeletedAt s))
            (connector_statuses db)).

Definition empty_deleting_namespace_ids (db : Store) : gorm.Error + list string :=
  inr (List.map ns_ID
         (List.filter
            (fun ns => String.eqb (nss_Phase (ns_Status ns)) ConnectorStatusPhaseDeleting &&
                       is_null (ns_DeletedAt ns) &&
                       Nat.eqb (live_status_count db ns) 0)
            (connector_namespaces db))).

(** The body of the transaction; [count] is the variable of the enclosing
    function the closure assigns. *)
Definition reconcile_tx (now : Time) (dbConn : Store)
    : nat * option errors.ServiceError * Store :=
  match empty_deleting_namespace_ids dbConn with
  | inl err => (0%nat, Some (pkg_services.HandleGetError err), dbConn)
  | inr namespaceIds =>
      let count := length namespaceIds in
      if Nat.eqb count 0 then (count, None, dbConn)
      else
        (* delete all the empty deleting namespaces *)
        match Delete (fun ns : ConnectorNamespace => IN (ns_ID ns) namespaceIds) now dbConn with
        | inl err => (0%nat, Some (pkg_services.HandleDeleteError (inl err)), dbConn)
        | inr db' => (count, None, db')
        end
  end.

Definition ReconcileDeletingNamespaces (k : connectorNamespaceService) (now : Time)
    (db : Store) : nat * list errors.ServiceError * Store :=
  match Transaction (reconcile_tx now) db with
  | (count, Some err, db') => (count, [pkg_services.HandleDeleteError (inr err)], db')
  | (count, None, db') => (count, [], db')
  end.

Definition CheckConnectorQuota (k : connectorNamespaceService) (db : Store)
    (namespaceId : string) : option errors.ServiceError :=
  match First (fun a => String.eqb (ann_NamespaceId a) namespaceId &&
                        String.eqb (ann_Key a) AnnotationProfileKey) db with
  | inl err => Some errors.FailedToCheckQuota
  | inr row =>
      let profileName := ann_Value row in
      let '(quota, _) := GetNamespaceQuota (quotaConfig k) profileName in
      if 0 <? Connectors quota then
        (* get number of connectors using this namespace *)
        match Count (fun c : Connector =>
                       match c_NamespaceId c with
                       | Some n => String.eqb n namespaceId
                       | None => false
                       end) db with
        | inl err => Some (pkg_services.HandleGetError err)
        | inr count =>
            if Connectors quota <=? count
            then Some errors.InsufficientQuotaError
            else None
        end
      else None
  end.

(** The rows of the join of [CanCreateEvalNamespace] that pass its
    [WHERE]: pairs of a namespace and its cluster. *)
Definition eval_namespaces_of (orgs : list string) (userId : string) (db : Store)
    : list (ConnectorNamespace * ConnectorCluster) :=
  List.filter
    (fun p : ConnectorNamespace * ConnectorCluster =>
       let (ns, cl) := p in
       (String.eqb (cl_ID cl) (ns_ClusterId ns) && IN (cl_OrganisationId cl) orgs) &&
       (match ns_TenantUserId ns with
        | Some u => String.eqb u userId
        | None => false
        end &&
        negb (is_null (ns_Expiration ns)) &&
        is_null (ns_DeletedAt ns) &&
        is_null (cl_DeletedAt cl)))
    (list_prod (connector_namespaces db) (connector_clusters db)).

(** [Count(&count)] on that join. *)
Definition count_eval_namespaces (orgs : list string) (userId : string) (db : Store)
    : gorm.Error + Z :=
  inr (Z.of_nat (length (eval_namespaces_of orgs userId db))).

Definition CanCreateEvalNamespace (k : connectorNamespaceService) (db : Store)
    (userId : string) : option errors.ServiceError :=
  match count_eval_namespaces
          (ConnectorEvalOrganizations (connectorsConfig k)) userId db with
  | inl err => Some errors.FailedToCheckQuota
  | inr count =>
      if 0 <? count
      then Some errors.InsufficientQuotaError
      else None
  end.

End services.

(* ===================================================================== *)
(** ** services: tenant lookup and listing *)
(* ===================================================================== *)

(** [Select(`id`, `tenant_user_id`, `tenant_organisation_id`)]: the other
    fields of the destination stay zero. *)
Definition select_tenant (ns : ConnectorNamespace) : ConnectorNamespace :=
  {| ns_ID := ns_ID ns; ns_DeletedAt := None; ns_Name := ""; ns_ClusterId := "";
     ns_Owner := ""; ns_Version := 0; ns_Expiration := None;
     ns_TenantUserId := ns_TenantUserId ns;
     ns_TenantOrganisationId := ns_TenantOrganisationId ns;
     ns_Status := ns_Status ns_zero; ns_Annotations := [];
     ns_TenantUser := None; ns_TenantOrganisation := None |}.

Definition GetNamespaceTenant (k : connectorNamespaceService) (db : Store)
    (namespaceId : string) : option ConnectorNamespace * option errors.ServiceError :=
  match First (fun ns : ConnectorNamespace => String.eqb (ns_ID ns) namespaceId) db with
  | inl err => (None, Some (pkg_services.HandleGetError err))
  | inr namespace => (Some (select_tenant namespace), None)
  end.

Module listing.

(** [services.ListArguments] and [api.PagingMeta], by the fields [List]
    reads and writes; Go's [int] is 64 bits wide. *)
Record ListArguments := {
  Page : Z;
  Size : Z;
  Search : string;
  OrderBy : list string
}.

Record PagingMeta := {
  pm_Page : Z;
  pm_Size : Z;
  pm_Total : Z
}.

(** What [List] can fail with: [errors.NewWithCause(errors.ErrorFailedToParseSearch,
    err, ...)], with the parser's message, or a [ServiceError] of the kinds
    above. *)
Inductive ListError :=
| FailedToParseSearch (cause : string)
| Failed (err : errors.ServiceError).

(** The value of a Go [int] expression: two's complement on 64 bits. *)
Definition int (z : Z) : Z := (z + 2 ^ 63) mod 2 ^ 64 - 2 ^ 63.

Section List.

(** [queryParser.Parse], of [pkg/services/queryparser], not among the
    sources: a search string gives an error message or the predicate of
    the store it stands for. *)
Variable Parse : string -> string + (ConnectorNamespace -> bool).

(** What the storage engine makes of the [ORDER BY] clauses, in the order
    they were added: the order it puts the rows in, or nothing where it
    rejects a clause (the clauses of the caller are forwarded as they
    are). *)
Variable ordered :
  list string -> option (list ConnectorNamespace -> list ConnectorNamespace).

(** Whether the ORM leaves out the clause for [Limit(0)] (all rows) or
    renders [LIMIT 0] (no row); releases of the ORM differ. *)
Variable limit_zero_is_unlimited : bool.

(** [Offset(n)]: the clause is rendered for a positive [n] only. *)
Definition Offset {A} (n : Z) (rows : list A) : list A :=
  if 0 <? n then skipn (Z.to_nat n) rows else rows.

(** [Limit(n)]: a positive [n] bounds the rows; a negative one does not. *)
Definition Limit {A} (n : Z) (rows : list A) : list A :=
  if 0 <? n then firstn (Z.to_nat n) rows
  else if (n =? 0) && negb limit_zero_is_unlimited then []
  else rows.

(** The conjunction of the [Where] conditions added so far. *)
Definition all_of (conds : list (ConnectorNamespace -> bool)) (ns : ConnectorNamespace)
    : bool :=
  forallb (fun c => c ns) conds.

Definition List (k : connectorNamespaceService) (db : Store) (clusterIDs : list string)
    (listArguments : ListArguments) (gtVersion : Z)
    : list ConnectorNamespace * option PagingMeta * option ListError :=
  let pagingMeta :=
    {| pm_Page := Page listArguments; pm_Size := Size listArguments; pm_Total := 0 |} in
  let conds : list (ConnectorNamespace -> bool) := [] in
  let conds :=
    if negb (Nat.eqb (length clusterIDs) 0)
    then (conds ++ [fun ns => IN (ns_ClusterId ns) clusterIDs])%list else conds in
  (* Apply search query *)
  match (if Nat.ltb 0 (String.length (Search listArguments))
         then match Parse (Search listArguments) with
              | inl err => inl err
              | inr searchDbQuery => inr (conds ++ [searchDbQuery])%list
              end
         else inr conds) with
  | inl err => ([], Some pagingMeta, Some (FailedToParseSearch err))
  | inr conds =>
      (* check if a minimum resource version is provided *)
      let conds :=
        if negb (gtVersion =? 0)
        then (conds ++ [fun ns => gtVersion <? ns_Version ns])%list else conds in
      (* set total, limit and paging *)
      let total := match Count (all_of conds) db with
                   | inr n => n
                   | inl _ => pm_Total pagingMeta
                   end in
      let size := if total <? pm_Size pagingMeta then total else pm_Size pagingMeta in
      let pagingMeta :=
        {| pm_Page := pm_Page pagingMeta; pm_Size := size; pm_Total := total |} in
      let offset := int (int (pm_Page pagingMeta - 1) * pm_Size pagingMeta) in
      let orders :=
        if Nat.eqb (length (OrderBy listArguments)) 0
        then ["name ASC"] else [] in
      let orders := (orders ++ OrderBy listArguments)%list in
      (* execute query *)
      match (match ordered orders with
             | None => inl ErrDriver
             | Some sort =>
                 match Find (all_of conds) db with
                 | inl err => inl err
                 | inr rows => inr (sort rows)
                 end
             end) with
      | inl err => ([], None, Some (Failed errors.GeneralError))
      | inr rows =>
          (List.map (Preload db) (Limit (pm_Size pagingMeta) (Offset offset rows)),
           Some pagingMeta, None)
      end
  end.

End List.

End listing.

(* ===================================================================== *)
(** ** config: loading the connector catalog *)
(* ===================================================================== *)

Module catalog.

(** A Go [error], by its message. *)
Definition error := string.

(** [os.FileInfo], by what [ReadFiles] asks of it. *)
Record FileInfo := { Name : string; IsDir : bool }.

(** The file system and the JSON decoder [ReadFiles] runs against:
    [shared.BuildFullFilePath], [ioutil.ReadDir], [filepath.Join],
    [ioutil.ReadFile] and [json.Unmarshal] into an entry. *)
Record Env := {
  BuildFullFilePath : string -> string;
  ReadDir : string -> error + list FileInfo;
  Join : string -> string -> string;
  ReadFile : string -> error + string;
  Unmarshal : string -> error + ConnectorCatalogEntry
}.

(** [fmt.Errorf("connector type '%s' defined in '%s' and '%s'", id, file, prev)]. *)
Definition defined_twice (id file prev : string) : error :=
  "connector type '" +:+ id +:+ "' defined in '" +:+ file +:+ "' and '" +:+ prev +:+ "'".

(** The order [sort.Slice] is given: by [ConnectorType.Id], as Go compares
    strings. *)
Definition by_id (a b : ConnectorCatalogEntry) : Prop :=
  String.leb (Id (ConnectorType_ a)) (Id (ConnectorType_ b)) = true.

#[export] Instance by_id_dec (a b : ConnectorCatalogEntry) : Decision (by_id a b).
Proof. unfold by_id. apply _. Defined.

(** The inner loop: the files of one directory. *)
Fixpoint load_files (env : Env) (dir : string) (files : list FileInfo)
    (typesLoaded : gmap string string) (values : list ConnectorCatalogEntry)
    : error + gmap string string * list ConnectorCatalogEntry :=
  match files with
  | [] => inr (typesLoaded, values)
  | f :: files =>
      (* skip over hidden files and dirs.. *)
      if IsDir f || String.prefix "." (Name f)
      then load_files env dir files typesLoaded values
      else
        let file := Join env dir (Name f) in
        (* Read the file *)
        match ReadFile env file with
        | inl err => inl err
        | inr buf =>
            match Unmarshal env buf with
            | inl err => inl err
            | inr entry =>
                match typesLoaded !! Id (ConnectorType_ entry) with
                | Some prev =>
                    inl (defined_twice (Id (ConnectorType_ entry)) file prev)
                | None =>
                    load_files env dir files
                      (<[Id (ConnectorType_ entry) := file]> typesLoaded)
                      (values ++ [entry])%list
                end
            end
        end
  end.

(** The outer loop: the directories. *)
Fixpoint load_dirs (env : Env) (dirs : list string)
    (typesLoaded : gmap string string) (values : list ConnectorCatalogEntry)
    : error + gmap string string * list ConnectorCatalogEntry :=
  match dirs with
  | [] => inr (typesLoaded, values)
  | dir :: dirs =>
      let dir := BuildFullFilePath env dir in
      match ReadDir env dir with
      | inl err => inl err
      | inr files =>
          match load_files env dir files typesLoaded values with
          | inl err => inl err
          | inr (typesLoaded, values) => load_dirs env dirs typesLoaded values
          end
      end
  end.

(** [(c *ConnectorsConfig) ReadFiles()], as a function of
    [c.ConnectorCatalogDirs]: the error returned, or the value assigned to
    [c.CatalogEntries].  [sort.Slice] is not stable; the ids it sorts are
    distinct by then, so the sorted slice is the same for every sorting
    algorithm. *)
Definition ReadFiles (env : Env) (ConnectorCatalogDirs : list string)
    : error + list ConnectorCatalogEntry :=
  match load_dirs env ConnectorCatalogDirs ∅ [] with
  | inl err => inl err
  | inr (_, values) => inr (merge_sort by_id values)
  end.

End catalog.

(* ===================================================================== *)
(** ** A small fleet, to run the service on *)
(* ===================================================================== *)

Module fleet.

(** A key for the quota-profile annotation. *)
Definition profile_key : string := "profile".

Definition namespace (id : string) (deleted : option Time) (cluster : string)
    (expiration : option Time) (user : option string) (phase : string)
    : ConnectorNamespace :=
  {| ns_ID := id; ns_DeletedAt := deleted; ns_Name := id; ns_ClusterId := cluster;
     ns_Owner := "owner"; ns_Version := 1; ns_Expiration := expiration;
     ns_TenantUserId := user; ns_TenantOrganisationId := None;
     ns_Status := {| nss_Phase := phase; nss_ConnectorsDeployed := 0 |};
     ns_Annotations := []; ns_TenantUser := None; ns_TenantOrganisation := None |}.

(** An evaluation namespace of alice that expires at 100. *)
Definition ns1 := namespace "ns-1" None "cluster-a" (Some 100) (Some "alice") "ready".
(** A namespace already in phase "deleting", with no connector left. *)
Definition ns2 := namespace "ns-2" None "cluster-b" None (Some "bob") "deleting".
(** A namespace that was soft-deleted at 50. *)
Definition ns3 := namespace "ns-3" (Some 50) "cluster-a" (Some 10) (Some "carol") "deleting".

Definition c1 : Connector :=
  {| c_ID := "c-1"; c_DeletedAt := None; c_NamespaceId := Some "ns-1";
     c_DesiredState := "ready" |}.
Definition c2 : Connector :=
  {| c_ID := "c-2"; c_DeletedAt := None; c_NamespaceId := Some "ns-1";
     c_DesiredState := "deleted" |}.

Definition s1 : ConnectorStatus :=
  {| cs_ID := "c-1"; cs_DeletedAt := None; cs_NamespaceID := Some "ns-1";
     cs_Phase := "ready" |}.

Definition d1 : ConnectorDeploymentStatus :=
  {| ds_ID := "c-1"; ds_DeletedAt := None; ds_Phase := "ready";
     ds_ConnectorID := "c-1" |}.
(** A second deployment of the connector c-1, under an id of its own. *)
Definition d2 : ConnectorDeploymentStatus :=
  {| ds_ID := "dep-2"; ds_DeletedAt := None; ds_Phase := "ready";
     ds_ConnectorID := "c-1" |}.

Definition store : Store :=
  {| connector_namespaces := [ns1; ns2; ns3];
     connector_namespace_annotations :=
       [{| ann_NamespaceId := "ns-1"; ann_Key := profile_key; ann_Value := "eval" |};
        {| ann_NamespaceId := "ns-2"; ann_Key := profile_key; ann_Value := "gone" |}];
     connector_tenant_users := [{| tu_ID := "alice" |}; {| tu_ID := "bob" |}];
     connector_tenant_organisations := [];
     connector_clusters :=
       [{| cl_ID := "cluster-a"; cl_DeletedAt := None; cl_Owner := "ops";
           cl_OrganisationId := "org-eval"; cl_Status_Phase := "ready" |};
        {| cl_ID := "cluster-b"; cl_DeletedAt := None; cl_Owner := "ops";
           cl_OrganisationId := "org-other"; cl_Status_Phase := "ready" |}];
     connectors := [c1; c2];
     connector_statuses := [s1];
     connector_deployment_statuses := [d1; d2] |}.

(** A store with no row at all. *)
Definition empty : Store :=
  {| connector_namespaces := []; connector_namespace_annotations := [];
     connector_tenant_users := []; connector_tenant_organisations := [];
     connector_clusters := []; connectors := []; connector_statuses := [];
     connector_deployment_statuses := [] |}.

(** The resolver knows the profile "eval", which allows one connector. *)
Definition service : connectorNamespaceService :=
  {| connectorsConfig :=
       {| ConnectorEvalDuration := 1000;
          ConnectorEvalOrganizations := ["org-eval"];
          ConnectorNamespaceLifecycleAPI := false;
          ConnectorDisableCascadeDelete := false;
          ConnectorCatalogDirs := [];
          CatalogEntries := [] |};
     quotaConfig :=
       {| EvalNamespaceQuotaProfile := "eval";
          GetNamespaceQuota := fun name =>
            if String.eqb name "eval" then ({| Connectors := 1 |}, true)
            else (NamespaceQuota_zero, false) |} |}.

(** The same service, with connectors set to "unassigned" instead of
    "deleted". *)
Definition unassigning_service : connectorNamespaceService :=
  {| connectorsConfig :=
       {| ConnectorEvalDuration := 1000;
          ConnectorEvalOrganizations := ["org-eval"];
          ConnectorNamespaceLifecycleAPI := false;
          ConnectorDisableCascadeDelete := true;
          ConnectorCatalogDirs := [];
          CatalogEntries := [] |};
     quotaConfig := quotaConfig service |}.

(** The predicate [connector_namespaces.id = 'ns-1']. *)
Definition id_is_ns1 (ns : ConnectorNamespace) : bool := String.eqb (ns_ID ns) "ns-1".

(** The condition ["connector_namespaces.id = ?"] that [Delete] hands over:
    one placeholder; with one value it compares the id, with none it is
    [id = (NULL)], true of no row, and the engine rejects a longer list. *)
Definition by_id : Condition ConnectorNamespace :=
  {| placeholders := 1;
     denotes := fun args =>
       match args with
       | [[v]] => Some (fun ns => String.eqb (ns_ID ns) v)
       | [[]] => Some (fun _ => false)
       | _ => None
       end |}.

(** The condition ["1 = 1"]: no placeholder, true of every row. *)
Definition every_namespace : Condition ConnectorNamespace :=
  {| placeholders := 0;
     denotes := fun args =>
       match args with
       | [] => Some (fun _ => true)
       | _ => None
       end |}.

End fleet.

(** A listing set-up for the small fleet: a parser that knows one search,
    and an engine that sorts by name only. *)
Module fleet_listing.

Definition Parse (s : string) : string + (ConnectorNamespace -> bool) :=
  if String.eqb s "owner = 'owner'"
  then inr (fun ns => String.eqb (ns_Owner ns) "owner")
  else inl "unsupported search".

(** The engine knows the column [name], by which the live rows of the
    small fleet are already in order, and rejects every other clause. *)
Definition ordered (clauses : list string)
    : option (list ConnectorNamespace -> list ConnectorNamespace) :=
  if forallb (fun c => String.eqb c "name ASC") clauses
  then Some (fun rows => rows) else None.

Definition owned (ns : ConnectorNamespace) : bool := String.eqb (ns_Owner ns) "owner".

Definition args (page size : Z) : listing.ListArguments :=
  {| listing.Page := page; listing.Size := size;
     listing.Search := "owner = 'owner'"; listing.OrderBy := [] |}.

End fleet_listing.

(** A small catalog: the directory "catalog" holds a sub-directory, a
    hidden file and two connector types; "more" holds a third type and
    "extra" a second definition of the type "sink".  A file holds the id
    of its type. *)
Module shelf.

Import catalog.

Definition entry (id : string) : ConnectorCatalogEntry :=
  {| Channels := ∅; ConnectorType_ := {| Id := id; Fields := ∅ |} |}.

Definition file (name : string) : FileInfo := {| Name := name; IsDir := false |}.

Definition env : Env :=
  {| BuildFullFilePath := fun dir => "/srv/" +:+ dir;
     ReadDir := fun dir =>
       if String.eqb dir "/srv/catalog"
       then inr [{| Name := "drafts"; IsDir := true |}; file "sink.json";
                 file ".index"; file "log.json"]
       else if String.eqb dir "/srv/more" then inr [file "http.json"]
       else if String.eqb dir "/srv/extra" then inr [file "copy.json"]
       else inl "no such file or directory";
     Join := fun dir name => dir +:+ "/" +:+ name;
     ReadFile := fun path =>
       if String.eqb path "/srv/catalog/sink.json" then inr "sink"
       else if String.eqb path "/srv/catalog/log.json" then inr "log"
       else if String.eqb path "/srv/more/http.json" then inr "http"
       else if String.eqb path "/srv/extra/copy.json" then inr "sink"
       else inl "no such file or directory";
     Unmarshal := fun buf =>
       if String.eqb buf "" then inl "unexpected end of JSON input"
       else inr (entry buf) |}.

End shelf.

(* ===================================================================== *)
(** ** What the theorems speak about *)
(* ===================================================================== *)

(** A record of the store: a row of its table that is not soft-deleted.
    A soft-deleted row is a deleted record; no statement built from a
    model sees it. *)
Definition stored {A} `{Schema A} (db : Store) (r : A) : Prop :=
  In r (table db) /\ deleted_at r = None.

(** The namespaces a predicate selects. *)
Definition matched (db : Store) (cond : ConnectorNamespace -> bool)
    (ns : ConnectorNamespace) : Prop :=
  stored db ns /\ cond ns = true.

(** The connectors a cascading deletion has to touch: those of a matched
    namespace whose desired state is not "deleted" yet. *)
Definition cascaded (db : Store) (cond : ConnectorNamespace -> bool)
    (c : Connector) : Prop :=
  stored db c /\ c_DesiredState c <> ConnectorDeleted /\
  exists ns, matched db cond ns /\ c_NamespaceId c = Some (ns_ID ns).

(** The primary key of [connector_namespaces]. *)
Definition namespace_ids_unique (db : Store) : Prop :=
  NoDup (List.map ns_ID (connector_namespaces db)).

(** *** Cascading deletion, step by step *)

Section cascade.

Variable ConnectorEnableUnassignedConnectors : ConnectorsConfig -> bool.
Variable k : connectorNamespaceService.
Variable dbConn : Store.
Variable cond : ConnectorNamespace -> bool.

(** The namespaces the first statement finds, and the connectors the
    third one finds. *)
Definition found_namespaces : list ConnectorNamespace := List.filter cond (scoped dbConn).

Definition namespaceIds : list string := List.map ns_ID found_namespaces.

Definition found_connectors : list Connector :=
  List.filter (fun c => IN_nullable (c_NamespaceId c) namespaceIds &&
                        negb (String.eqb (c_DesiredState c) ConnectorDeleted))
              (scoped dbConn).

Definition connectorIds : list string := List.map c_ID found_connectors.

Definition connectorDesiredState : string :=
  if ConnectorEnableUnassignedConnectors (connectorsConfig k)
  then ConnectorUnassigned else ConnectorDeleted.

(** The tables after the bulk updates. *)
Definition marked_namespaces : list ConnectorNamespace :=
  List.map (fun r => if is_null (ns_DeletedAt r) && IN (ns_ID r) namespaceIds
                     then ns_with_Phase ConnectorNamespacePhaseDeleting r else r)
           (connector_namespaces dbConn).

Definition cascade_store : Store :=
  {| connector_namespaces := marked_namespaces;
     connector_namespace_annotations := connector_namespace_annotations dbConn;
     connector_tenant_users := connector_tenant_users dbConn;
     connector_tenant_organisations := connector_tenant_organisations dbConn;
     connector_clusters := connector_clusters dbConn;
     connectors :=
       List.map (fun r => if is_null (c_DeletedAt r) &&
                             (is_null (c_DeletedAt r) && IN (c_ID r) connectorIds)
                          then c_with_DesiredState connectorDesiredState r else r)
                (connectors dbConn);
     connector_statuses :=
       List.map (fun r => if is_null (cs_DeletedAt r) &&
                             (is_null (cs_DeletedAt r) && IN (cs_ID r) connectorIds)
                          then cs_with_Phase ConnectorStatusPhaseDeleting r else r)
                (connector_statuses dbConn);
     connector_deployment_statuses :=
       List.map (fun r => if is_null (ds_DeletedAt r) &&
                             (is_null (ds_DeletedAt r) && IN (ds_ID r) connectorIds)
                          then ds_with_Phase ConnectorStatusPhaseDeleting r else r)
                (connector_deployment_statuses dbConn) |}.

End cascade.

(** *** The sweep *)

(** A namespace the sweep has to remove: in phase "deleting", not
    soft-deleted, and with no connector-status row that is not soft-deleted
    and points to it. *)
Definition sweepable (db : Store) (ns : ConnectorNamespace) : Prop :=
  nss_Phase (ns_Status ns) = ConnectorNamespacePhaseDeleting /\
  ns_DeletedAt ns = None /\
  forall s, In s (connector_statuses db) -> cs_DeletedAt s = None ->
            cs_NamespaceID s <> Some (ns_ID ns).

(** The ids the grouped join selects, and the store after the soft delete. *)
Definition sweep_ids (db : Store) : list string :=
  List.map ns_ID
    (List.filter
       (fun ns => String.eqb (nss_Phase (ns_Status ns)) ConnectorStatusPhaseDeleting &&
                  is_null (ns_DeletedAt ns) &&
                  Nat.eqb (live_status_count db ns) 0)
       (connector_namespaces db)).

Definition swept (now : Time) (db : Store) : Store :=
  with_connector_namespaces
    (List.map (fun r => if is_null (ns_DeletedAt r) && IN (ns_ID r) (sweep_ids db)
                        then ns_with_DeletedAt (Some now) r else r)
              (connector_namespaces db)) db.

(** *** Quota *)

(** [profile] is the value of the quota-profile annotation of the
    namespace: an annotation row of the namespace under the reserved key
    holds it, and no such row holds another value. *)
Definition namespace_profile (AnnotationProfileKey : string) (db : Store)
    (namespaceId profile : string) : Prop :=
  (exists a, In a (connector_namespace_annotations db) /\
             ann_NamespaceId a = namespaceId /\ ann_Key a = AnnotationProfileKey /\
             ann_Value a = profile) /\
  (forall a, In a (connector_namespace_annotations db) ->
             ann_NamespaceId a = namespaceId -> ann_Key a = AnnotationProfileKey ->
             ann_Value a = profile).

(** The number of connectors of a namespace (rows that are not
    soft-deleted, whatever their desired state). *)
Definition connector_count (db : Store) (namespaceId : string) : Z :=
  Z.of_nat (length (List.filter
                      (fun c => bool_decide (c_NamespaceId c = Some namespaceId /\
                                             c_DeletedAt c = None))
                      (connectors db))).

(** The user owns an evaluation namespace: one that is not soft-deleted,
    has an expiration, and sits on a cluster that is not soft-deleted and
    belongs to one of the organisations [orgs]. *)
Definition owns_eval_namespace (orgs : list string) (db : Store) (userId : string) : Prop :=
  exists ns cl,
    In ns (connector_namespaces db) /\ In cl (connector_clusters db) /\
    ns_TenantUserId ns = Some userId /\ ns_DeletedAt ns = None /\
    ns_Expiration ns <> None /\
    cl_ID cl = ns_ClusterId ns /\ cl_DeletedAt cl = None /\
    In (cl_OrganisationId cl) orgs.

(** *** Allocation *)

(** A cluster an evaluation namespace may be placed on: not soft-deleted,
    and of a whitelisted organisation. *)
Definition eval_cluster (cfg : ConnectorsConfig) (db : Store) (cl : ConnectorCluster) : Prop :=
  In cl (connector_clusters db) /\ cl_DeletedAt cl = None /\
  In (cl_OrganisationId cl) (ConnectorEvalOrganizations cfg).

(** The annotations of a list that carry the key. *)
Definition with_key (key : string) (anns : list ConnectorNamespaceAnnotation)
    : list ConnectorNamespaceAnnotation :=
  List.filter (fun a => String.eqb (ann_Key a) key) anns.

(** The request as a successful call leaves it, given the cluster picked. *)
Definition allocated (AnnotationProfileKey : string) (k : connectorNamespaceService)
    (now : Time) (cid : string) (request : ConnectorNamespace) : ConnectorNamespace :=
  let profile := EvalNamespaceQuotaProfile (quotaConfig k) in
  let r := setProfileAnnotation AnnotationProfileKey profile (ns_Annotations request) in
  {| ns_ID := ns_ID request; ns_DeletedAt := ns_DeletedAt request;
     ns_Name := ns_Name request; ns_ClusterId := cid; ns_Owner := ns_Owner request;
     ns_Version := ns_Version request;
     ns_Expiration := Some (now + ConnectorEvalDuration (connectorsConfig k));
     ns_TenantUserId := ns_TenantUserId request;
     ns_TenantOrganisationId := ns_TenantOrganisationId request;
     ns_Status := ns_Status request;
     ns_Annotations :=
       if snd r then fst r
       else (fst r ++ [{| ann_NamespaceId := ns_ID request;
                          ann_Key := AnnotationProfileKey;
                          ann_Value := profile |}])%list;
     ns_TenantUser := ns_TenantUser request;
     ns_TenantOrganisation := ns_TenantOrganisation request |}.

(* ===================================================================== *)
(** ** What a listing selects *)
(* ===================================================================== *)

Section listing_selection.

Import listing.

Variable Parse : string -> string + (ConnectorNamespace -> bool).

(** The search of the arguments stands for the predicate [q]: no search
    at all, and [q] holds of every namespace, or a search that parses
    to [q]. *)
Definition parsed (la : ListArguments) (q : ConnectorNamespace -> bool) : Prop :=
  (Search la = "" /\ q = fun _ => true) \/
  (Search la <> "" /\ Parse (Search la) = inr q).

(** What the three filters of [List] let through. *)
Definition selects (clusterIDs : list string) (q : ConnectorNamespace -> bool)
    (gtVersion : Z) (ns : ConnectorNamespace) : Prop :=
  (clusterIDs <> [] -> In (ns_ClusterId ns) clusterIDs) /\
  q ns = true /\
  (gtVersion <> 0 -> gtVersion < ns_Version ns).

#[local] Instance In_string_dec (x : string) (l : list string) : Decision (In x l) :=
  In_dec String.string_dec x l.

#[local] Instance selects_dec clusterIDs q gtVersion ns :
  Decision (selects clusterIDs q gtVersion ns).
Proof. unfold selects. apply _. Defined.

(** The namespaces of the store the filters select, in the order of the
    table. *)
Definition selected (db : Store) (clusterIDs : list string)
    (q : ConnectorNamespace -> bool) (gtVersion : Z) : list ConnectorNamespace :=
  List.filter (fun ns => bool_decide (ns_DeletedAt ns = None /\
                                      selects clusterIDs q gtVersion ns))
              (connector_namespaces db).

(** The order asked for: by name, unless the caller gives clauses. *)
Definition order_clauses (la : ListArguments) : list string :=
  match OrderBy la with
  | [] => ["name ASC"]
  | _ :: _ => OrderBy la
  end.

(** The page size after the clamp, as a number of rows. *)
Definition page_rows (db : Store) (clusterIDs : list string)
    (q : ConnectorNamespace -> bool) (gtVersion : Z) (la : ListArguments) : nat :=
  Nat.min (Z.to_nat (Size la)) (length (selected db clusterIDs q gtVersion)).

End listing_selection.

(* ===================================================================== *)
(** ** What the catalog directories hold *)
(* ===================================================================== *)

Section catalog_contents.

Import catalog.

Variable env : Env.

Abbreviation id_of e := (Id (ConnectorType_ e)).

(** A file [ReadFiles] looks at: not a directory, not hidden. *)
Definition visible (f : FileInfo) : bool :=
  negb (IsDir f || String.prefix "." (Name f)).

(** The entry a file of a directory holds, when it can be read and
    decoded. *)
Definition file_entry (dir : string) (f : FileInfo) : option ConnectorCatalogEntry :=
  match ReadFile env (Join env dir (Name f)) with
  | inr buf => match Unmarshal env buf with
               | inr entry => Some entry
               | inl _ => None
               end
  | inl _ => None
  end.

(** The entries of the visible files of a catalog directory, in the order
    of its listing. *)
Definition dir_entries (dir : string) : list ConnectorCatalogEntry :=
  match ReadDir env (BuildFullFilePath env dir) with
  | inr files => omap (file_entry (BuildFullFilePath env dir)) (List.filter visible files)
  | inl _ => []
  end.

(** The directory can be listed, and each of its visible files read and
    decoded. *)
Definition dir_readable (dir : string) : Prop :=
  exists files,
    ReadDir env (BuildFullFilePath env dir) = inr files /\
    Forall (fun f => is_Some (file_entry (BuildFullFilePath env dir) f))
           (List.filter visible files).

(** The entries of all the catalog directories. *)
Definition catalog_entries (dirs : list string) : list ConnectorCatalogEntry :=
  flat_map dir_entries dirs.

(** Strictly ascending ids. *)
Definition id_lt (a b : ConnectorCatalogEntry) : Prop :=
  String.ltb (id_of a) (id_of b) = true.

(** What the loops keep true of their two variables: [typesLoaded] knows
    exactly the ids of [values], and [values] has each id once. *)
Definition loaded (typesLoaded : gmap string string)
    (values : list ConnectorCatalogEntry) : Prop :=
  (forall id, typesLoaded !! id = None <-> ~ In id (List.map (fun e => id_of e) values)) /\
  NoDup (List.map (fun e => id_of e) values).

End catalog_contents.

(* ===================================================================== *)
(** ** The store after an eviction *)
(* ===================================================================== *)

(** The store [GetExpiredNamespaceIds] leaves. *)
Definition evicted (now : Time) (db : Store) : Store :=
  with_connector_namespaces
    (List.map (fun r => if is_null (ns_DeletedAt r) &&
                           IN (ns_ID r) (List.map ns_ID (List.filter (expired now) (scoped db)))
                        then ns_with_Phase ConnectorNamespacePhaseDeleting r else r)
              (connector_namespaces db)) db.

(* ===================================================================== *)
(** ** Lemmas on the query layer *)
(* ===================================================================== *)

Lemma is_null_true {A} (o : option A) : is_null o = true <-> o = None.
Proof. destruct o; simpl; split; congruence. Qed.

Lemma IN_In (x : string) (l : list string) : IN x l = true <-> In x l.
Proof.
  unfold IN. rewrite existsb_exists. split.
  - intros [y [Hy He]]. apply String.eqb_eq in He. now subst.
  - intros Hx. exists x. split; [assumption | apply String.eqb_refl].
Qed.

Lemma IN_nullable_In (x : option string) (l : list string) :
  IN_nullable x l = true <-> exists v, x = Some v /\ In v l.
Proof.
  destruct x as [v|]; simpl.
  - rewrite IN_In. split; [eauto | intros [w [[= ->] Hw]]; assumption].
  - split; [discriminate | intros [w [[=] _]]].
Qed.

Lemma In_scoped {A} `{Schema A} (db : Store) (r : A) :
  In r (scoped db) <-> stored db r.
Proof.
  unfold scoped, stored. rewrite filter_In, is_null_true. reflexivity.
Qed.

Lemma filter_nil_iff {A} (f : A -> bool) (l : list A) :
  List.filter f l = [] <-> forall x, In x l -> f x = false.
Proof.
  split.
  - intros Hnil x Hx. destruct (f x) eqn:Hf; [|reflexivity].
    assert (Hin : In x (List.filter f l)) by (apply filter_In; auto).
    rewrite Hnil in Hin. destruct Hin.
  - intros Hall. induction l as [|a l IH]; simpl; [reflexivity|].
    rewrite (Hall a) by (left; reflexivity).
    apply IH. intros x Hx. apply Hall. right. assumption.
Qed.

Lemma filter_not_nil {A} (f : A -> bool) (l : list A) (x : A) :
  In x l -> f x = true -> List.filter f l <> [].
Proof.
  intros Hx Hf Hnil. rewrite filter_nil_iff in Hnil.
  rewrite (Hnil x Hx) in Hf. discriminate.
Qed.

Lemma length_eqb_0 {A} (l : list A) : Nat.eqb (length l) 0 = true <-> l = [].
Proof. destruct l; simpl; split; congruence. Qed.

(** Two rows of a table with the same primary key are the same row. *)
Lemma unique_key_row {A} (key : A -> string) (l : list A) (a b : A) :
  NoDup (List.map key l) -> In a l -> In b l -> key a = key b -> a = b.
Proof.
  induction l as [|x l IH]; simpl; [intros _ []|].
  intros Hnd Ha Hb Hk. inversion Hnd as [|? ? Hx Hl]; subst.
  destruct Ha as [->|Ha], Hb as [->|Hb].
  - reflexivity.
  - exfalso. apply Hx, list_elem_of_In. rewrite Hk. apply in_map. assumption.
  - exfalso. apply Hx, list_elem_of_In. rewrite <- Hk. apply in_map. assumption.
  - apply IH; assumption.
Qed.

(** Selecting rows keeps the keys distinct. *)
Lemma NoDup_map_filter {A} (key : A -> string) (f : A -> bool) (l : list A) :
  NoDup (List.map key l) -> NoDup (List.map key (List.filter f l)).
Proof.
  induction l as [|a l IH]; simpl; [auto|].
  intros Hnd. apply NoDup_cons in Hnd as [Ha Hl].
  destruct (f a); simpl; [|auto].
  apply NoDup_cons. split; [|auto].
  intros Hin. apply Ha. apply list_elem_of_In. apply list_elem_of_In in Hin.
  apply in_map_iff in Hin as [x [Hx Hin]]. rewrite <- Hx. apply in_map.
  apply filter_In in Hin as [Hin _]. assumption.
Qed.

(** A row of a table after a bulk update, by position. *)
Lemma nth_error_updated {A} (c : A -> bool) (f : A -> A) (l : list A) (i : nat) (r : A) :
  nth_error l i = Some r ->
  nth_error (List.map (fun r => if c r then f r else r) l) i
  = Some (if c r then f r else r).
Proof. intros Hr. rewrite nth_error_map, Hr. reflexivity. Qed.

(** Reads position [i] of a table after a bulk update, from [Hi], the row
    at [i] before it. *)
Ltac updated_row Hi := rewrite (nth_error_updated _ _ _ _ _ Hi).

(** [notify_clusters] appends one topic per element of the set. *)
Lemma notify_fold (l : list string) (bus : SignalBus) :
  fold_left (fun b cid => Notify b (deployments_topic cid)) l bus
  = (bus ++ List.map deployments_topic l)%list.
Proof.
  revert bus. induction l as [|c l IH]; intros bus; simpl.
  - now rewrite app_nil_r.
  - rewrite IH. unfold Notify. now rewrite <- app_assoc.
Qed.

Lemma string_app_inj_l (p a b : string) : p +:+ a = p +:+ b -> a = b.
Proof. induction p as [|ch p IH]; simpl; [auto | intros [= H]; auto]. Qed.

Lemma string_app_length (a b : string) :
  String.length (a +:+ b) = (String.length a + String.length b)%nat.
Proof. induction a as [|ch a IH]; simpl; [reflexivity | now rewrite IH]. Qed.

Lemma string_app_inj_r (s a b : string) : a +:+ s = b +:+ s -> a = b.
Proof.
  revert b. induction a as [|ch a IH]; intros [|ch' b] H.
  - reflexivity.
  - apply (f_equal String.length) in H.
    rewrite !string_app_length in H. simpl in H. lia.
  - apply (f_equal String.length) in H.
    rewrite !string_app_length in H. simpl in H. lia.
  - injection H as -> H. f_equal. apply IH. assumption.
Qed.

Lemma deployments_topic_inj (a b : string) :
  deployments_topic a = deployments_topic b -> a = b.
Proof.
  unfold deployments_topic. intros H.
  apply string_app_inj_l in H. apply string_app_inj_r in H. assumption.
Qed.

(* ===================================================================== *)
(** ** Cascading deletion *)
(* ===================================================================== *)

Section cascading_deletion.

Variable ConnectorEnableUnassignedConnectors : ConnectorsConfig -> bool.
Variable k : connectorNamespaceService.
Variable ctx : db.Context.
Variable dbConn : Store.
Variable query : Condition ConnectorNamespace.
Variable values : list Value.
Variable cond : ConnectorNamespace -> bool.

Abbreviation found_ns := (found_namespaces dbConn cond).
Abbreviation found_cs := (found_connectors dbConn cond).
Abbreviation ns_ids := (namespaceIds dbConn cond).
Abbreviation c_ids := (connectorIds dbConn cond).
Abbreviation marked := (marked_namespaces dbConn cond).
Abbreviation cascaded_store :=
  (cascade_store ConnectorEnableUnassignedConnectors k dbConn cond).

(** The slice of values is one argument: it binds a text of one
    placeholder, and no other. *)
Lemma Where_one_placeholder :
  placeholders query = 1%nat -> denotes query [values] = Some cond ->
  Where query [values] = inr cond.
Proof. intros Hp Hd. unfold Where. cbn [length]. rewrite Hp, Hd. reflexivity. Qed.

Lemma Where_other_placeholders :
  placeholders query <> 1%nat -> Where query [values] = inl ErrDriver.
Proof.
  intros Hp. unfold Where. cbn [length].
  destruct (Nat.eqb 1 (placeholders query)) eqn:E; [|reflexivity].
  apply Nat.eqb_eq in E. congruence.
Qed.

Lemma cascade_shape :
  Where query [values] = inr cond ->
  DeleteNamespaceAndConnectorDeployments ConnectorEnableUnassignedConnectors k ctx dbConn
    query values =
  match found_ns, found_cs with
  | [], _ => (false, false, None, ctx, dbConn)
  | _ :: _, [] =>
      (true, false, None, ctx, with_connector_namespaces marked dbConn)
  | _ :: _, _ :: _ =>
      (true, true, None,
       {| db.postCommitActions :=
            (db.postCommitActions ctx ++
             [notify_clusters (list_to_set (List.map ns_ClusterId found_ns))])%list |},
       cascaded_store)
  end.
Proof.
  intros Hbound.
  unfold DeleteNamespaceAndConnectorDeployments. rewrite Hbound. unfold Find, Updates.
  fold found_ns. rewrite !length_map, !map_map.
  change (List.map (fun x => ns_ID (select_id_cluster_id x)) found_ns)
    with ns_ids.
  change (List.map (fun x => ns_ClusterId (select_id_cluster_id x)) found_ns)
    with (List.map ns_ClusterId found_ns).
  destruct found_ns as [|r0 rs] eqn:Hfn; [reflexivity|].
  cbn [length Nat.eqb].
  change (scoped (with_table _ dbConn) : list Connector) with (scoped dbConn : list Connector).
  fold found_cs.
  destruct found_cs as [|c0 cs] eqn:Hfc; [reflexivity|].
  unfold cascade_store, connectorIds. rewrite Hfc. reflexivity.
Qed.

(** A condition that does not bind fails the first statement: nothing is
    written and nothing scheduled. *)
Lemma cascade_unbound (err : gorm.Error) :
  Where query [values] = inl err ->
  DeleteNamespaceAndConnectorDeployments ConnectorEnableUnassignedConnectors k ctx dbConn
    query values
  = (false, false, Some (pkg_services.HandleGetError err), ctx, dbConn).
Proof.
  intros Hunbound. unfold DeleteNamespaceAndConnectorDeployments.
  rewrite Hunbound. reflexivity.
Qed.

Lemma In_found_namespaces (ns : ConnectorNamespace) :
  In ns found_ns <-> matched dbConn cond ns.
Proof. unfold found_namespaces, matched. rewrite filter_In, In_scoped. reflexivity. Qed.

Lemma In_namespaceIds (n : string) :
  In n ns_ids <-> exists ns, matched dbConn cond ns /\ ns_ID ns = n.
Proof.
  unfold namespaceIds. rewrite in_map_iff. split.
  - intros [ns [<- Hns]]. exists ns. rewrite <- In_found_namespaces. auto.
  - intros [ns [Hns <-]]. exists ns. rewrite In_found_namespaces. auto.
Qed.

Lemma In_found_connectors (c : Connector) :
  In c found_cs <-> cascaded dbConn cond c.
Proof.
  unfold found_connectors, cascaded. rewrite filter_In, In_scoped, andb_true_iff,
    negb_true_iff, IN_nullable_In, String.eqb_neq.
  split.
  - intros [Hst [[v [Hv Hin]] Hd]]. apply In_namespaceIds in Hin as [ns [Hns <-]].
    split; [assumption|]. split; [assumption|]. exists ns. split; assumption.
  - intros [Hst [Hd [ns [Hns Hv]]]]. split; [assumption|]. split; [|assumption].
    exists (ns_ID ns). split; [assumption|]. apply In_namespaceIds. eauto.
Qed.

Lemma In_connectorIds (c : Connector) :
  cascaded dbConn cond c -> In (c_ID c) c_ids.
Proof. intros Hc. unfold connectorIds. apply in_map. apply In_found_connectors. assumption. Qed.

Lemma connectorIds_cascaded (id : string) :
  In id c_ids -> exists c, cascaded dbConn cond c /\ c_ID c = id.
Proof.
  unfold connectorIds. rewrite in_map_iff. intros [c [<- Hc]].
  exists c. split; [apply In_found_connectors; assumption | reflexivity].
Qed.

Lemma found_namespaces_nil : found_ns = [] <-> forall ns, ~ matched dbConn cond ns.
Proof.
  split.
  - intros Hnil ns Hns. apply In_found_namespaces in Hns. rewrite Hnil in Hns. destruct Hns.
  - intros Hno. destruct found_ns as [|r rs] eqn:E; [reflexivity|].
    exfalso. apply (Hno r). apply In_found_namespaces. rewrite E. left. reflexivity.
Qed.

Lemma found_connectors_nil : found_cs = [] <-> forall c, ~ cascaded dbConn cond c.
Proof.
  split.
  - intros Hnil c Hc. apply In_found_connectors in Hc. rewrite Hnil in Hc. destruct Hc.
  - intros Hno. destruct found_cs as [|r rs] eqn:E; [reflexivity|].
    exfalso. apply (Hno r). apply In_found_connectors. rewrite E. left. reflexivity.
Qed.

Lemma marked_namespace (i : nat) (ns : ConnectorNamespace) :
  nth_error (connector_namespaces dbConn) i = Some ns ->
  matched dbConn cond ns ->
  nth_error marked i = Some (ns_with_Phase ConnectorNamespacePhaseDeleting ns).
Proof.
  intros Hi Hm. unfold marked_namespaces.
  updated_row Hi.
  assert (Hin : IN (ns_ID ns) ns_ids = true).
  { apply IN_In, In_namespaceIds. exists ns. split; [assumption|reflexivity]. }
  destruct Hm as [[_ Hlive] _]. simpl in Hlive. rewrite Hlive, Hin. reflexivity.
Qed.

(** C1. The values of the call reach [Where] as one slice, not spread.
    A condition whose text has exactly one placeholder binds, and the call
    then does what the specification says of every predicate: with no namespace
    matching it returns (false, false, nil) and changes nothing; with one
    matching, every matched namespace gets phase "deleting" and the result
    is (true, false, nil) if no connector of a matched namespace has a
    desired state other than "deleted", and (true, true, nil) if one has.
    A condition with no placeholder, or with several, fails in the first
    statement whatever it stands for: the call returns
    (false, false, GeneralError) and writes nothing, also when namespaces
    match. *)
Theorem DeleteNamespaceAndConnectorDeployments_result :
  (placeholders query <> 1%nat ->
   DeleteNamespaceAndConnectorDeployments ConnectorEnableUnassignedConnectors k ctx dbConn
     query values
   = (false, false, Some errors.GeneralError, ctx, dbConn))
  /\
  (placeholders query = 1%nat -> denotes query [values] = Some cond ->
   ((forall ns, ~ matched dbConn cond ns) ->
    DeleteNamespaceAndConnectorDeployments ConnectorEnableUnassignedConnectors k ctx dbConn
      query values
    = (false, false, None, ctx, dbConn))
   /\
   ((exists ns, matched dbConn cond ns) ->
    exists ctx' db',
      (forall i ns,
         nth_error (connector_namespaces dbConn) i = Some ns ->
         matched dbConn cond ns ->
         exists ns',
           nth_error (connector_namespaces db') i = Some ns' /\
           nss_Phase (ns_Status ns') = "deleting" /\
           ns' = ns_with_Phase "deleting" ns) /\
      ((forall c, ~ cascaded dbConn cond c) ->
       DeleteNamespaceAndConnectorDeployments ConnectorEnableUnassignedConnectors k ctx
         dbConn query values
       = (true, false, None, ctx', db')) /\
      ((exists c, cascaded dbConn cond c) ->
       DeleteNamespaceAndConnectorDeployments ConnectorEnableUnassignedConnectors k ctx
         dbConn query values
       = (true, true, None, ctx', db')))).
Proof.
  split.
  { intros Hp. rewrite (cascade_unbound ErrDriver); [reflexivity|].
    apply Where_other_placeholders. assumption. }
  intros Hp Hd. rewrite (cascade_shape (Where_one_placeholder Hp Hd)). split.
  - intros Hno. apply found_namespaces_nil in Hno. rewrite Hno. reflexivity.
  - intros [ns0 Hns0]. apply In_found_namespaces in Hns0.
    destruct found_ns as [|r rs] eqn:Hfn; [destruct Hns0|].
    destruct found_cs as [|c0 cs] eqn:Hfc.
    + exists ctx, (with_connector_namespaces marked dbConn).
      split; [|split].
      * intros i ns Hi Hm. eexists. split; [exact (marked_namespace i ns Hi Hm)|].
        split; reflexivity.
      * reflexivity.
      * intros [c Hc]. apply In_found_connectors in Hc. rewrite Hfc in Hc. destruct Hc.
    + eexists _, cascaded_store. split; [|split].
      * intros i ns Hi Hm. eexists. split; [exact (marked_namespace i ns Hi Hm)|].
        split; reflexivity.
      * intros Hno. exfalso. apply (Hno c0). apply In_found_connectors.
        rewrite Hfc. left. reflexivity.
      * reflexivity.
Qed.

Lemma cascade_result :
  Where query [values] = inr cond ->
  (exists c, cascaded dbConn cond c) ->
  DeleteNamespaceAndConnectorDeployments ConnectorEnableUnassignedConnectors k ctx dbConn
    query values
  = (true, true, None,
     {| db.postCommitActions :=
          (db.postCommitActions ctx ++
           [notify_clusters (list_to_set (List.map ns_ClusterId found_ns))])%list |},
     cascaded_store).
Proof.
  intros Hbound [c Hc]. rewrite (cascade_shape Hbound).
  assert (Hcr : In c found_cs) by (apply In_found_connectors; assumption).
  destruct Hc as [_ [_ [ns [Hns _]]]]. apply In_found_namespaces in Hns.
  destruct found_ns; [destruct Hns|].
  destruct found_cs; [destruct Hcr|]. reflexivity.
Qed.

(** C2. In a cascading deletion that finds a connector whose desired state
    is not "deleted": every such connector gets the desired state
    "deleted", or "unassigned" when the configuration has the policy the
    service reads set, a function of the configuration alone; its status
    row gets phase "deleting".  Of the deployment statuses, those whose
    own id is the id of such a connector get phase "deleting"; a
    deployment status kept under another id is left as it was, whichever
    connector it belongs to. *)
Theorem cascade_marks_connectors :
  placeholders query = 1%nat -> denotes query [values] = Some cond ->
  (exists c, cascaded dbConn cond c) ->
  exists ctx' db',
    DeleteNamespaceAndConnectorDeployments ConnectorEnableUnassignedConnectors k ctx dbConn
      query values
    = (true, true, None, ctx', db') /\
    (forall i c,
       nth_error (connectors dbConn) i = Some c ->
       cascaded dbConn cond c ->
       exists c',
         nth_error (connectors db') i = Some c' /\
         c_DesiredState c'
         = (if ConnectorEnableUnassignedConnectors (connectorsConfig k)
            then "unassigned" else "deleted") /\
         c' = c_with_DesiredState (c_DesiredState c') c) /\
    (forall i s c,
       nth_error (connector_statuses dbConn) i = Some s ->
       cs_DeletedAt s = None ->
       cascaded dbConn cond c -> cs_ID s = c_ID c ->
       exists s',
         nth_error (connector_statuses db') i = Some s' /\
         cs_Phase s' = "deleting" /\ s' = cs_with_Phase "deleting" s) /\
    (forall i s c,
       nth_error (connector_deployment_statuses dbConn) i = Some s ->
       ds_DeletedAt s = None ->
       cascaded dbConn cond c -> ds_ID s = c_ID c ->
       exists s',
         nth_error (connector_deployment_statuses db') i = Some s' /\
         ds_Phase s' = "deleting" /\ s' = ds_with_Phase "deleting" s) /\
    (forall i s,
       nth_error (connector_deployment_statuses dbConn) i = Some s ->
       (forall c, cascaded dbConn cond c -> ds_ID s <> c_ID c) ->
       nth_error (connector_deployment_statuses db') i = Some s).
Proof.
  intros Hp Hd Hex. eexists _, cascaded_store.
  split; [apply cascade_result; [apply Where_one_placeholder|]; assumption|].
  split; [|split; [|split]].
  - intros i c Hi Hc. eexists. split.
    + unfold cascade_store. cbn [connectors]. updated_row Hi.
      pose proof (In_connectorIds c Hc) as Hin. apply IN_In in Hin.
      destruct Hc as [[_ Hlive] _]. simpl in Hlive. rewrite Hlive, Hin. reflexivity.
    + unfold connectorDesiredState.
      destruct (ConnectorEnableUnassignedConnectors (connectorsConfig k));
        split; reflexivity.
  - intros i s c Hi Hlive Hc Hid. eexists. split.
    + unfold cascade_store. cbn [connector_statuses]. updated_row Hi.
      pose proof (In_connectorIds c Hc) as Hin. apply IN_In in Hin.
      rewrite Hlive, Hid, Hin. reflexivity.
    + split; reflexivity.
  - intros i s c Hi Hlive Hc Hid. eexists. split.
    + unfold cascade_store. cbn [connector_deployment_statuses]. updated_row Hi.
      pose proof (In_connectorIds c Hc) as Hin. apply IN_In in Hin.
      rewrite Hlive, Hid, Hin. reflexivity.
    + split; reflexivity.
  - intros i s Hi Hother. unfold cascade_store. cbn [connector_deployment_statuses].
    updated_row Hi.
    destruct (IN (ds_ID s) c_ids) eqn:Hin.
    + exfalso. apply IN_In, connectorIds_cascaded in Hin as [c [Hc Hid]].
      exact (Hother c Hc (eq_sym Hid)).
    + rewrite !andb_false_r. reflexivity.
Qed.

Lemma NoDup_map_inj {A B} (f : A -> B) (l : list A) :
  (forall a b, f a = f b -> a = b) -> NoDup l -> NoDup (List.map f l).
Proof.
  intros Hinj. induction 1 as [|x l Hx Hl IH]; simpl; constructor; [|assumption].
  rewrite list_elem_of_In, in_map_iff. intros [y [Hy Hin]].
  apply Hinj in Hy. subst y. apply Hx, list_elem_of_In. assumption.
Qed.

Lemma In_cluster_set (cid : string) :
  In cid (elements (list_to_set (List.map ns_ClusterId found_ns) : gset string))
  <-> exists ns, matched dbConn cond ns /\ ns_ClusterId ns = cid.
Proof.
  rewrite <- list_elem_of_In, elem_of_elements, elem_of_list_to_set,
    list_elem_of_In, in_map_iff.
  split; intros [ns [H1 H2]]; exists ns.
  - apply In_found_namespaces in H2. auto.
  - apply In_found_namespaces in H1. auto.
Qed.

(** C3. When a cascading deletion touches a connector, it registers one
    post-commit action on the transaction of the request.  On commit the
    action notifies, for each cluster that owns a matched namespace, the
    topic "/kafka_connector_clusters/<cluster>/deployments", once per
    distinct cluster, whatever the number of namespaces and connectors;
    on rollback nothing is notified. *)
Theorem cascade_schedules_notifications :
  placeholders query = 1%nat -> denotes query [values] = Some cond ->
  (exists c, cascaded dbConn cond c) ->
  exists ctx' db' clusters,
    DeleteNamespaceAndConnectorDeployments ConnectorEnableUnassignedConnectors k ctx dbConn
      query values
    = (true, true, None, ctx', db') /\
    NoDup clusters /\
    (forall cid, In cid clusters <->
                 exists ns, matched dbConn cond ns /\ ns_ClusterId ns = cid) /\
    length (db.postCommitActions ctx') = S (length (db.postCommitActions ctx)) /\
    (forall bus,
       db.Commit ctx' bus
       = (db.Commit ctx bus ++
          List.map (fun cid => "/kafka_connector_clusters/" +:+ cid +:+ "/deployments")
                   clusters)%list) /\
    NoDup (List.map (fun cid => "/kafka_connector_clusters/" +:+ cid +:+ "/deployments")
                    clusters) /\
    (forall bus, db.Rollback ctx' bus = bus).
Proof.
  intros Hp Hd Hex.
  eexists _, cascaded_store,
    (elements (list_to_set (List.map ns_ClusterId found_ns) : gset string)).
  split; [apply cascade_result; [apply Where_one_placeholder|]; assumption|].
  split; [apply NoDup_elements|].
  split; [apply In_cluster_set|].
  split; [cbn; rewrite length_app; simpl; lia|].
  split; [|split; [|reflexivity]].
  - intros bus. unfold db.Commit. cbn [db.postCommitActions].
    rewrite fold_left_app. cbn [fold_left]. unfold notify_clusters.
    apply notify_fold.
  - apply (NoDup_map_inj deployments_topic);
      [apply deployments_topic_inj | apply NoDup_elements].
Qed.

End cascading_deletion.

(* ===================================================================== *)
(** ** Get *)
(* ===================================================================== *)

Lemma First_none {A} `{Schema A} (cond : A -> bool) (db : Store) :
  (forall r, stored db r -> cond r = false) -> First cond db = inl ErrRecordNotFound.
Proof.
  intros Hno. unfold First.
  assert (Hnil : List.filter cond (scoped db) = []).
  { apply filter_nil_iff. intros r Hr. apply Hno, In_scoped. assumption. }
  rewrite Hnil. reflexivity.
Qed.

Lemma First_some {A} `{Schema A} (cond : A -> bool) (db : Store) (r : A) :
  stored db r -> cond r = true ->
  (forall r', stored db r' -> cond r' = true -> r' = r) ->
  First cond db = inr r.
Proof.
  intros Hr Hc Huniq. unfold First.
  destruct (List.filter cond (scoped db)) as [|r' l] eqn:E.
  - exfalso. apply (filter_not_nil cond (scoped db) r); auto. apply In_scoped. assumption.
  - assert (Hin : In r' (List.filter cond (scoped db))) by (rewrite E; left; reflexivity).
    apply filter_In in Hin as [Hin Hc']. apply In_scoped in Hin.
    rewrite (Huniq r' Hin Hc'). reflexivity.
Qed.

Lemma primary_key_cond_eq (id : string) (ns : ConnectorNamespace) :
  id <> "" -> primary_key_cond id ns = true <-> ns_ID ns = id.
Proof.
  intros Hid. unfold primary_key_cond.
  apply String.eqb_neq in Hid. rewrite Hid. apply String.eqb_eq.
Qed.

(** For an id that is in the store, [Get] returns the record with its
    annotations and its tenant relations loaded. *)
Lemma Get_stored (k : connectorNamespaceService) (db : Store) (ns : ConnectorNamespace) :
  namespace_ids_unique db -> stored db ns -> ns_ID ns <> "" ->
  Get k db (ns_ID ns) = (Some (Preload db ns), None).
Proof.
  intros Huniq Hns Hid. unfold Get.
  rewrite (First_some _ db ns Hns).
  - reflexivity.
  - apply primary_key_cond_eq; auto.
  - intros r' [Hr' _] Hc. apply primary_key_cond_eq in Hc; [|assumption].
    destruct Hns as [Hns _].
    apply (unique_key_row ns_ID (connector_namespaces db)); assumption.
Qed.

(** C4. For an id with no record in the store, [Get] fails, and the error
    it returns is a [GeneralError]: its kind is not [NotFoundError]. *)
Theorem Get_absent_is_GeneralError (k : connectorNamespaceService) (db : Store)
    (namespaceID : string) :
  namespaceID <> "" ->
  (forall ns, stored db ns -> ns_ID ns <> namespaceID) ->
  Get k db namespaceID = (None, Some errors.GeneralError) /\
  errors.Code errors.GeneralError <> errors.ErrorNotFound.
Proof.
  intros Hid Habs. split; [|discriminate].
  unfold Get. rewrite First_none; [reflexivity|].
  intros r Hr. destruct (primary_key_cond namespaceID r) eqn:E; [|reflexivity].
  apply primary_key_cond_eq in E; [|assumption]. exfalso. exact (Habs r Hr E).
Qed.

(* ===================================================================== *)
(** ** Eviction and reconciliation *)
(* ===================================================================== *)

Lemma expired_iff (now : Time) (ns : ConnectorNamespace) :
  expired now ns = true <-> exists t, ns_Expiration ns = Some t /\ t < now.
Proof.
  unfold expired. destruct (ns_Expiration ns) as [t|].
  - rewrite Z.ltb_lt. split; [eauto | intros [t' [[= <-] Ht]]; assumption].
  - split; [discriminate | intros [t' [[=] _]]].
Qed.

(** C5. [GetExpiredNamespaceIds] returns exactly the ids of the namespaces
    whose expiration is strictly before [now], and after the call each of
    them has phase "deleting"; a namespace whose expiration is null or not
    before [now] is not in the result, and its row is unchanged.  (A
    namespace is a row that is not soft-deleted; a soft-deleted row is
    neither listed nor changed.) *)
Theorem GetExpiredNamespaceIds_evicts (k : connectorNamespaceService) (now : Time)
    (db : Store) :
  namespace_ids_unique db ->
  exists ids db',
    GetExpiredNamespaceIds k now db = (ids, None, db') /\
    NoDup ids /\
    (forall id, In id ids <->
                exists ns t, stored db ns /\ ns_ID ns = id /\
                             ns_Expiration ns = Some t /\ t < now) /\
    (forall i ns t,
       nth_error (connector_namespaces db) i = Some ns ->
       stored db ns -> ns_Expiration ns = Some t -> t < now ->
       exists ns',
         nth_error (connector_namespaces db') i = Some ns' /\
         nss_Phase (ns_Status ns') = "deleting" /\
         ns' = ns_with_Phase "deleting" ns) /\
    (forall i ns,
       nth_error (connector_namespaces db) i = Some ns ->
       (ns_Expiration ns = None \/ exists t, ns_Expiration ns = Some t /\ now <= t) ->
       ~ In (ns_ID ns) ids /\ nth_error (connector_namespaces db') i = Some ns) /\
    (forall i ns,
       nth_error (connector_namespaces db) i = Some ns ->
       ns_DeletedAt ns <> None ->
       ~ In (ns_ID ns) ids /\ nth_error (connector_namespaces db') i = Some ns).
Proof.
  intros Huniq. unfold GetExpiredNamespaceIds, Find, Updates.
  set (found := List.filter (expired now) (scoped db)).
  set (ids := List.map ns_ID found).
  assert (Hids : forall id, In id ids <->
            exists ns t, stored db ns /\ ns_ID ns = id /\
                         ns_Expiration ns = Some t /\ t < now).
  { intros id. unfold ids, found. rewrite in_map_iff. split.
    - intros [ns [<- Hin]]. apply filter_In in Hin as [Hin He].
      apply In_scoped in Hin. apply expired_iff in He as [t [He Ht]].
      exists ns, t. auto.
    - intros [ns [t [Hst [<- [He Ht]]]]]. exists ns. split; [reflexivity|].
      apply filter_In. split; [apply In_scoped; assumption|].
      apply expired_iff. eauto. }
  eexists ids, _. split; [reflexivity|].
  split; [|split; [exact Hids|split; [|split]]].
  - unfold ids, found, scoped. do 2 apply NoDup_map_filter. exact Huniq.
  - intros i ns t Hi Hst He Ht. cbn [connector_namespaces with_table ConnectorNamespace_schema
      with_connector_namespaces table].
    updated_row Hi.
    assert (Hin : IN (ns_ID ns) ids = true).
    { apply IN_In, Hids. exists ns, t. auto. }
    destruct Hst as [_ Hlive]. simpl in Hlive. simpl deleted_at.
    rewrite Hlive, Hin. eexists. split; [reflexivity|]. split; reflexivity.
  - intros i ns Hi Hne.
    assert (Hnot : ~ In (ns_ID ns) ids).
    { intros Hin. apply Hids in Hin as [ns2 [t [[Hin2 _] [Hid [He Ht]]]]].
      assert (ns2 = ns).
      { apply (unique_key_row ns_ID (connector_namespaces db)); auto.
        apply nth_error_In with i. assumption. }
      subst ns2. destruct Hne as [Hn | [t' [Hn Ht']]]; rewrite Hn in He.
      - discriminate.
      - injection He as ->. lia. }
    split; [assumption|].
    cbn [connector_namespaces with_table ConnectorNamespace_schema
      with_connector_namespaces table].
    updated_row Hi.
    destruct (IN (ns_ID ns) ids) eqn:E; [apply IN_In in E; contradiction|].
    rewrite andb_false_r. reflexivity.
  - intros i ns Hi Hdel. split.
    + intros Hin. apply Hids in Hin as [ns2 [t [[Hin2 Hlive] [Hid _]]]].
      assert (ns2 = ns).
      { apply (unique_key_row ns_ID (connector_namespaces db)); auto.
        apply nth_error_In with i. assumption. }
      subst ns2. contradiction.
    + cbn [connector_namespaces with_table ConnectorNamespace_schema
        with_connector_namespaces table].
      updated_row Hi. simpl deleted_at.
      destruct (ns_DeletedAt ns); [reflexivity | contradiction].
Qed.

Lemma live_status_count_0 (db : Store) (ns : ConnectorNamespace) :
  Nat.eqb (live_status_count db ns) 0 = true <->
  forall s, In s (connector_statuses db) -> cs_DeletedAt s = None ->
            cs_NamespaceID s <> Some (ns_ID ns).
Proof.
  unfold live_status_count. rewrite length_eqb_0, filter_nil_iff.
  split.
  - intros Hall s Hs Hlive Hn. specialize (Hall s Hs).
    rewrite Hn, Hlive, String.eqb_refl in Hall. discriminate.
  - intros Hall s Hs. specialize (Hall s Hs).
    destruct (cs_DeletedAt s); [apply andb_false_r|].
    destruct (cs_NamespaceID s) as [n|]; [|reflexivity].
    destruct (String.eqb n (ns_ID ns)) eqn:E; [|reflexivity].
    apply String.eqb_eq in E. subst n. exfalso. apply Hall; reflexivity.
Qed.

Lemma sweep_cond_iff (db : Store) (ns : ConnectorNamespace) :
  String.eqb (nss_Phase (ns_Status ns)) ConnectorStatusPhaseDeleting &&
  is_null (ns_DeletedAt ns) && Nat.eqb (live_status_count db ns) 0 = true
  <-> sweepable db ns.
Proof.
  unfold sweepable.
  rewrite !andb_true_iff, String.eqb_eq, is_null_true, live_status_count_0.
  unfold ConnectorStatusPhaseDeleting, ConnectorNamespacePhaseDeleting. tauto.
Qed.

Lemma In_sweep_ids (db : Store) (id : string) :
  In id (sweep_ids db) <->
  exists ns, In ns (connector_namespaces db) /\ sweepable db ns /\ ns_ID ns = id.
Proof.
  unfold sweep_ids. rewrite in_map_iff. split.
  - intros [ns [<- Hin]]. apply filter_In in Hin as [Hin Hc].
    apply sweep_cond_iff in Hc. eauto.
  - intros [ns [Hin [Hs <-]]]. exists ns. split; [reflexivity|].
    apply filter_In. split; [assumption | apply sweep_cond_iff; assumption].
Qed.

Lemma sweep_selects (db : Store) (ns : ConnectorNamespace) :
  namespace_ids_unique db -> In ns (connector_namespaces db) ->
  is_null (ns_DeletedAt ns) && IN (ns_ID ns) (sweep_ids db) = true <-> sweepable db ns.
Proof.
  intros Huniq Hin. rewrite andb_true_iff, is_null_true, IN_In, In_sweep_ids. split.
  - intros [_ [ns2 [Hin2 [Hs Hid]]]].
    assert (ns2 = ns) by (apply (unique_key_row ns_ID (connector_namespaces db)); auto).
    subst ns2. assumption.
  - intros Hs. split; [apply Hs | eauto].
Qed.

Lemma reconcile_shape (k : connectorNamespaceService) (now : Time) (db : Store) :
  ReconcileDeletingNamespaces k now db =
  match sweep_ids db with
  | [] => (0%nat, [], db)
  | _ :: _ => (length (sweep_ids db), [], swept now db)
  end.
Proof.
  unfold ReconcileDeletingNamespaces, Transaction, reconcile_tx,
    empty_deleting_namespace_ids, Delete, Updates.
  fold (sweep_ids db). destruct (sweep_ids db) eqn:E; [reflexivity|].
  unfold swept. rewrite E. reflexivity.
Qed.



(* ===================================================================== *)
(** ** Quota *)
(* ===================================================================== *)

Section quota.

Variable AnnotationProfileKey : string.
Variable k : connectorNamespaceService.
Variable db : Store.
Variable namespaceId : string.

Lemma count_connectors :
  Count (fun c : Connector =>
           match c_NamespaceId c with
           | Some n => String.eqb n namespaceId
           | None => false
           end) db = inr (connector_count db namespaceId).
Proof.
  unfold Count, connector_count, scoped. simpl table. do 3 f_equal.
  induction (connectors db) as [|c l IH]; [reflexivity|].
  cbn [List.filter deleted_at Connector_schema]. rewrite <- IH. clear IH.
  destruct (c_DeletedAt c) as [t|] eqn:Hd; cbn [is_null].
  - rewrite bool_decide_eq_false_2 by (intros [_ H]; discriminate). reflexivity.
  - cbn [List.filter]. destruct (c_NamespaceId c) as [n|] eqn:Hn.
    + destruct (String.eqb n namespaceId) eqn:E.
      * apply String.eqb_eq in E. subst n.
        rewrite bool_decide_eq_true_2 by auto. reflexivity.
      * apply String.eqb_neq in E.
        rewrite bool_decide_eq_false_2 by (intros [[= H] _]; contradiction).
        reflexivity.
    + rewrite bool_decide_eq_false_2 by (intros [H _]; discriminate). reflexivity.
Qed.

Lemma First_profile (profile : string) :
  namespace_profile AnnotationProfileKey db namespaceId profile ->
  exists a,
    First (fun a => String.eqb (ann_NamespaceId a) namespaceId &&
                    String.eqb (ann_Key a) AnnotationProfileKey) db = inr a /\
    ann_Value a = profile.
Proof.
  intros [[a [Hin [Hn [Hk Hv]]]] Hall]. unfold First.
  match goal with
  | |- context [List.filter ?f ?l] => destruct (List.filter f l) as [|a' rest] eqn:E
  end.
  - exfalso. eapply filter_not_nil; [| |exact E].
    + apply In_scoped. split; [exact Hin | reflexivity].
    + simpl. rewrite Hn, Hk, !String.eqb_refl. reflexivity.
  - exists a'. split; [reflexivity|].
    assert (Hin' : In a' (a' :: rest)) by (left; reflexivity).
    rewrite <- E in Hin'. apply filter_In in Hin' as [Hin' Hc].
    apply In_scoped in Hin' as [Hin' _].
    apply andb_true_iff in Hc as [Hn' Hk'].
    apply String.eqb_eq in Hn', Hk'. apply Hall; assumption.
Qed.

(** The check, once the profile and its policy are known. *)
Lemma CheckConnectorQuota_unfold (profile : string) (quota : NamespaceQuota) (found : bool) :
  namespace_profile AnnotationProfileKey db namespaceId profile ->
  GetNamespaceQuota (quotaConfig k) profile = (quota, found) ->
  CheckConnectorQuota AnnotationProfileKey k db namespaceId =
  if 0 <? Connectors quota
  then if Connectors quota <=? connector_count db namespaceId
       then Some errors.InsufficientQuotaError else None
  else None.
Proof.
  intros Hp Hq. destruct (First_profile profile Hp) as [a [Ha Hv]].
  unfold CheckConnectorQuota. rewrite Ha, Hv, Hq, count_connectors. reflexivity.
Qed.

(** C7. For a namespace whose quota-profile annotation resolves to a
    policy with cap [max]: [CheckConnectorQuota] succeeds when the number of
    connectors of the namespace is below [max]; it fails with
    [InsufficientQuotaError] when the number has reached a positive [max];
    and it succeeds whenever [max] is zero or negative. *)
Theorem CheckConnectorQuota_cap (profile : string) (quota : NamespaceQuota) (found : bool) :
  namespace_profile AnnotationProfileKey db namespaceId profile ->
  GetNamespaceQuota (quotaConfig k) profile = (quota, found) ->
  let max := Connectors quota in
  let count := connector_count db namespaceId in
  (count < max ->
   CheckConnectorQuota AnnotationProfileKey k db namespaceId = None) /\
  (0 < max -> max <= count ->
   CheckConnectorQuota AnnotationProfileKey k db namespaceId
   = Some errors.InsufficientQuotaError) /\
  (max <= 0 ->
   CheckConnectorQuota AnnotationProfileKey k db namespaceId = None).
Proof.
  intros Hp Hq max count.
  rewrite (CheckConnectorQuota_unfold profile quota found Hp Hq).
  fold max count. repeat split; intros.
  - destruct (0 <? max); [|reflexivity].
    destruct (max <=? count) eqn:E; [apply Z.leb_le in E; lia | reflexivity].
  - destruct (0 <? max) eqn:E0; [|apply Z.ltb_ge in E0; lia].
    destruct (max <=? count) eqn:E; [reflexivity | apply Z.leb_gt in E; lia].
  - destruct (0 <? max) eqn:E0; [apply Z.ltb_lt in E0; lia | reflexivity].
Qed.

(** C10. When the profile named by the annotation is unknown to the
    resolver, which then hands back the zero-valued policy and the flag
    "not found", [CheckConnectorQuota] ignores the flag and succeeds,
    whatever the connectors of the namespace. *)
Theorem CheckConnectorQuota_unknown_profile (profile : string) :
  namespace_profile AnnotationProfileKey db namespaceId profile ->
  GetNamespaceQuota (quotaConfig k) profile = (NamespaceQuota_zero, false) ->
  CheckConnectorQuota AnnotationProfileKey k db namespaceId = None.
Proof.
  intros Hp Hq.
  rewrite (CheckConnectorQuota_unfold profile NamespaceQuota_zero false Hp Hq).
  reflexivity.
Qed.

(** C8. [CanCreateEvalNamespace] fails with [InsufficientQuotaError] exactly
    when the user owns an evaluation namespace on a cluster of a
    whitelisted organisation, and succeeds in every other state. *)
Theorem CanCreateEvalNamespace_iff (userId : string) :
  let orgs := ConnectorEvalOrganizations (connectorsConfig k) in
  (CanCreateEvalNamespace k db userId = Some errors.InsufficientQuotaError
   <-> owns_eval_namespace orgs db userId) /\
  (~ owns_eval_namespace orgs db userId -> CanCreateEvalNamespace k db userId = None).
Proof.
  intros orgs.
  assert (Hiff : eval_namespaces_of orgs userId db <> [] <-> owns_eval_namespace orgs db userId).
  { unfold eval_namespaces_of, owns_eval_namespace. split.
    - intros Hne.
      match type of Hne with
      | List.filter ?f ?l <> [] => destruct (List.filter f l) as [|[ns cl] rest] eqn:E
      end; [contradiction|].
      assert (Hin : In (ns, cl) ((ns, cl) :: rest)) by (left; reflexivity).
      rewrite <- E in Hin. apply filter_In in Hin as [Hin Hc].
      apply in_prod_iff in Hin as [Hns Hcl].
      rewrite !andb_true_iff, negb_true_iff, !is_null_true, IN_In, String.eqb_eq in Hc.
      destruct Hc as [[Hid Horg] [[[Hu He] Hd] Hcd]].
      exists ns, cl. repeat split; auto.
      + destruct (ns_TenantUserId ns) as [u|]; [|discriminate].
        apply String.eqb_eq in Hu. subst u. reflexivity.
      + intros Hn. rewrite Hn in He. discriminate.
    - intros [ns [cl [Hns [Hcl [Hu [Hd [He [Hid [Hcd Horg]]]]]]]]].
      apply (filter_not_nil _ _ (ns, cl)).
      + apply in_prod_iff. auto.
      + rewrite Hu, Hd, Hcd, Hid, !String.eqb_refl. simpl.
        destruct (ns_Expiration ns); [|contradiction]. simpl.
        rewrite !andb_true_r. apply IN_In. assumption. }
  unfold CanCreateEvalNamespace, count_eval_namespaces. fold orgs.
  destruct (eval_namespaces_of orgs userId db) as [|p rest] eqn:E; simpl.
  - split.
    + split; [discriminate|]. intros Ho. apply Hiff in Ho. contradiction.
    + reflexivity.
  - assert (Ho : owns_eval_namespace orgs db userId) by (apply Hiff; discriminate).
    split.
    + split; [auto | reflexivity].
    + intros Hno. contradiction.
Qed.

End quota.

(* ===================================================================== *)
(** ** Allocation of an evaluation namespace *)
(* ===================================================================== *)

Section allocation.

Variable AnnotationProfileKey : string.

Lemma ann_with_same_Value (a : ConnectorNamespaceAnnotation) :
  ann_with_Value (ann_Value a) a = a.
Proof. destruct a; reflexivity. Qed.

(** The loop finds the key exactly when an annotation carries it. *)
Lemma setProfileAnnotation_found (profile : string) (anns : list ConnectorNamespaceAnnotation) :
  snd (setProfileAnnotation AnnotationProfileKey profile anns) = true <->
  with_key AnnotationProfileKey anns <> [].
Proof.
  unfold with_key. induction anns as [|a l IH]; simpl.
  - split; [discriminate | contradiction].
  - destruct (String.eqb (ann_Key a) AnnotationProfileKey); simpl.
    + split; [discriminate | reflexivity].
    + destruct (setProfileAnnotation AnnotationProfileKey profile l). simpl in *.
      exact IH.
Qed.

(** With at most one annotation under the key, the loop overwrites in
    place: the list keeps its rows and their order, and the row under the
    key gets the value. *)
Lemma setProfileAnnotation_in_place (profile : string)
    (anns : list ConnectorNamespaceAnnotation) :
  (length (with_key AnnotationProfileKey anns) <= 1)%nat ->
  fst (setProfileAnnotation AnnotationProfileKey profile anns)
  = List.map (fun a => if String.eqb (ann_Key a) AnnotationProfileKey
                       then ann_with_Value profile a else a) anns.
Proof.
  unfold with_key. induction anns as [|a l IH]; simpl; [reflexivity|].
  destruct (String.eqb (ann_Key a) AnnotationProfileKey) eqn:Hk; simpl.
  - intros Hle. f_equal.
    + destruct (String.eqb (ann_Value a) profile) eqn:Hv; simpl; [|reflexivity].
      apply String.eqb_eq in Hv. subst profile. symmetry. apply ann_with_same_Value.
    + assert (Hnil : List.filter (fun a => String.eqb (ann_Key a) AnnotationProfileKey) l = []).
      { destruct (List.filter _ l); [reflexivity | simpl in Hle; lia]. }
      rewrite filter_nil_iff in Hnil. clear IH Hle.
      induction l as [|b l IHl]; simpl; [reflexivity|].
      rewrite (Hnil b) by (left; reflexivity). f_equal.
      apply IHl. intros x Hx. apply Hnil. right. assumption.
  - intros Hle. specialize (IH Hle).
    destruct (setProfileAnnotation AnnotationProfileKey profile l). simpl in *.
    f_equal. assumption.
Qed.

Lemma with_key_overwritten (profile : string) (anns : list ConnectorNamespaceAnnotation) :
  with_key AnnotationProfileKey
    (List.map (fun a => if String.eqb (ann_Key a) AnnotationProfileKey
                        then ann_with_Value profile a else a) anns)
  = List.map (ann_with_Value profile) (with_key AnnotationProfileKey anns).
Proof.
  unfold with_key. induction anns as [|a l IH]; simpl; [reflexivity|].
  destruct (String.eqb (ann_Key a) AnnotationProfileKey) eqn:Hk; simpl; rewrite Hk, IH;
    reflexivity.
Qed.

Lemma In_eval_cluster_ids (cfg : ConnectorsConfig) (db : Store) (id : string)
    (l : list string) :
  eval_cluster_ids (ConnectorEvalOrganizations cfg) db = inr l ->
  In id l <-> exists cl, eval_cluster cfg db cl /\ cl_ID cl = id.
Proof.
  unfold eval_cluster_ids, eval_cluster. intros [= <-]. rewrite in_map_iff.
  split.
  - intros [cl [<- Hin]]. apply filter_In in Hin as [Hin Hc].
    apply andb_true_iff in Hc as [Hd Ho]. apply is_null_true in Hd. apply IN_In in Ho.
    exists cl. auto.
  - intros [cl [[Hin [Hd Ho]] <-]]. exists cl. split; [reflexivity|].
    apply filter_In. split; [assumption|].
    apply andb_true_iff. split; [apply is_null_true | apply IN_In]; assumption.
Qed.

Lemma SetEvalClusterId_shape (k : connectorNamespaceService) (db : Store)
    (now : Time) (seed : nat) (request : ConnectorNamespace) (l : list string) :
  eval_cluster_ids (ConnectorEvalOrganizations (connectorsConfig k)) db = inr l ->
  SetEvalClusterId AnnotationProfileKey k db now seed request =
  match l with
  | [] => (request, Some errors.Unauthorized)
  | _ :: _ =>
      (allocated AnnotationProfileKey k now
         (nth (if Nat.eqb (length l) 1 then 0%nat else Intn seed (length l)) l "")
         request, None)
  end.
Proof.
  intros El. unfold SetEvalClusterId, allocated. rewrite El.
  destruct l as [|id l']; [reflexivity|].
  cbn [length Nat.eqb].
  destruct (Nat.eqb (length l') 0);
    cbn [ns_Annotations ns_with_Expiration ns_with_ClusterId];
    destruct (setProfileAnnotation AnnotationProfileKey
                (EvalNamespaceQuotaProfile (quotaConfig k)) (ns_Annotations request))
      as [anns' found];
    destruct found; reflexivity.
Qed.

(** C9. Without an eligible cluster [SetEvalClusterId] fails with
    [UnauthorizedError] and leaves the request as it was.  With one, it
    succeeds: the cluster id of the request is the id of an eligible
    cluster (of the only one, when there is only one), the expiration is
    [now] plus the configured duration, and, when the request came with at
    most one annotation under the quota-profile key, it leaves with exactly
    one, whose value is the configured evaluation profile: overwritten in
    place when it was there, appended when it was not. *)
Theorem SetEvalClusterId_allocates (k : connectorNamespaceService) (db : Store)
    (now : Time) (seed : nat) (request : ConnectorNamespace) :
  let cfg := connectorsConfig k in
  let profile := EvalNamespaceQuotaProfile (quotaConfig k) in
  let anns := ns_Annotations request in
  ((forall cl, ~ eval_cluster cfg db cl) ->
   SetEvalClusterId AnnotationProfileKey k db now seed request
   = (request, Some errors.Unauthorized))
  /\
  ((exists cl, eval_cluster cfg db cl) ->
   exists request',
     SetEvalClusterId AnnotationProfileKey k db now seed request = (request', None) /\
     (exists cl, eval_cluster cfg db cl /\ ns_ClusterId request' = cl_ID cl) /\
     (forall cl, eval_cluster cfg db cl ->
                 (forall cl', eval_cluster cfg db cl' -> cl' = cl) ->
                 ns_ClusterId request' = cl_ID cl) /\
     ns_Expiration request' = Some (now + ConnectorEvalDuration cfg) /\
     ((length (with_key AnnotationProfileKey anns) <= 1)%nat ->
      (exists a, with_key AnnotationProfileKey (ns_Annotations request') = [a] /\
                 ann_Value a = profile) /\
      (with_key AnnotationProfileKey anns <> [] ->
       ns_Annotations request'
       = List.map (fun a => if String.eqb (ann_Key a) AnnotationProfileKey
                            then ann_with_Value profile a else a) anns) /\
      (with_key AnnotationProfileKey anns = [] ->
       ns_Annotations request'
       = (anns ++ [{| ann_NamespaceId := ns_ID request;
                      ann_Key := AnnotationProfileKey;
                      ann_Value := profile |}])%list))).
Proof.
  intros cfg profile anns.
  destruct (eval_cluster_ids (ConnectorEvalOrganizations cfg) db) as [e|l] eqn:El;
    [discriminate|].
  rewrite (SetEvalClusterId_shape k db now seed request l El).
  pose proof (fun id => In_eval_cluster_ids cfg db id l El) as Hl.
  split.
  - intros Hno. destruct l as [|id l']; [reflexivity|].
    exfalso. destruct (proj1 (Hl id)) as [cl [Hcl _]]; [left; reflexivity|].
    exact (Hno cl Hcl).
  - intros [cl0 Hcl0].
    destruct l as [|id0 l'] eqn:Hl0.
    { exfalso. apply (proj2 (Hl (cl_ID cl0))). eauto. }
    rewrite <- Hl0 in *.
    set (cid := nth (if Nat.eqb (length l) 1 then 0%nat else Intn seed (length l)) l "").
    assert (Hcid : In cid l).
    { unfold cid. apply nth_In. rewrite Hl0. cbn [length].
      destruct (Nat.eqb (S (length l')) 1); [lia|].
      unfold Intn. apply Nat.mod_upper_bound. lia. }
    apply Hl in Hcid as [cl [Hcl Hid]].
    eexists. split; [reflexivity|].
    split; [exists cl; split; [assumption | symmetry; exact Hid]|].
    split; [intros cl1 Hcl1 Honly; rewrite <- (Honly cl Hcl); symmetry; exact Hid|].
    split; [reflexivity|].
    intros Hle. cbn [allocated ns_Annotations]. fold profile anns.
    pose proof (setProfileAnnotation_found profile anns) as Hfound.
    pose proof (setProfileAnnotation_in_place profile anns Hle) as Hplace.
    destruct (setProfileAnnotation AnnotationProfileKey profile anns) as [anns' found].
    cbn [fst snd] in *. subst anns'.
    destruct found.
    + assert (Hk : with_key AnnotationProfileKey anns <> []) by (apply Hfound; reflexivity).
      split; [|split; [reflexivity | contradiction]].
      rewrite with_key_overwritten.
      destruct (with_key AnnotationProfileKey anns) as [|a [|b rest]];
        [contradiction | | simpl in Hle; lia].
      exists (ann_with_Value profile a). split; reflexivity.
    + assert (Hk : with_key AnnotationProfileKey anns = []).
      { destruct (with_key AnnotationProfileKey anns) eqn:E; [reflexivity|].
        assert (false = true) by (apply Hfound; discriminate). discriminate. }
      assert (Hsame : List.map (fun a => if String.eqb (ann_Key a) AnnotationProfileKey
                                         then ann_with_Value profile a else a) anns = anns).
      { unfold with_key in Hk. rewrite filter_nil_iff in Hk.
        clear -Hk. induction anns as [|a l0 IH]; simpl; [reflexivity|].
        rewrite (Hk a) by (left; reflexivity). f_equal.
        apply IH. intros x Hx. apply Hk. right. assumption. }
      rewrite Hsame.
      split; [|split; [contradiction | reflexivity]].
      unfold with_key in *. rewrite List.filter_app, Hk. simpl.
      rewrite String.eqb_refl. eexists. split; reflexivity.
Qed.

End allocation.

(* ===================================================================== *)
(** ** The theorems at work on the small fleet *)
(* ===================================================================== *)

Lemma fleet_ids_unique : namespace_ids_unique fleet.store.
Proof. apply (bool_decide_unpack _). vm_compute. exact I. Defined.

Lemma fleet_ns1_matched : matched fleet.store fleet.id_is_ns1 fleet.ns1.
Proof. split; [split; [left; reflexivity | reflexivity] | reflexivity]. Defined.

Lemma fleet_c1_cascaded : cascaded fleet.store fleet.id_is_ns1 fleet.c1.
Proof.
  split; [split; [left; reflexivity | reflexivity]|].
  split; [discriminate|].
  exists fleet.ns1. split; [exact fleet_ns1_matched | reflexivity].
Defined.

Lemma fleet_by_id_bound :
  placeholders fleet.by_id = 1%nat /\
  denotes fleet.by_id [["ns-1"]] = Some fleet.id_is_ns1.
Proof. split; reflexivity. Defined.

(** The condition "1 = 1" holds of ns-1, and the call fails on it;
    deleting ns-1 by its id puts it in phase "deleting" and reports a
    cascade. *)
Lemma DeleteNamespaceAndConnectorDeployments_result_witness :
  (matched fleet.store (fun _ => true) fleet.ns1 /\
   DeleteNamespaceAndConnectorDeployments ConnectorDisableCascadeDelete fleet.service
     db.background fleet.store fleet.every_namespace []
   = (false, false, Some errors.GeneralError, db.background, fleet.store)) /\
  exists ctx' db' ns',
    DeleteNamespaceAndConnectorDeployments ConnectorDisableCascadeDelete fleet.service
      db.background fleet.store fleet.by_id ["ns-1"] = (true, true, None, ctx', db') /\
    nth_error (connector_namespaces db') 0 = Some ns' /\
    nss_Phase (ns_Status ns') = "deleting".
Proof.
  split.
  - split; [split; [split; [left; reflexivity | reflexivity] | reflexivity]|].
    apply (proj1 (DeleteNamespaceAndConnectorDeployments_result
                    ConnectorDisableCascadeDelete fleet.service db.background fleet.store
                    fleet.every_namespace [] (fun _ => true))).
    discriminate.
  - destruct (proj2 (proj2 (DeleteNamespaceAndConnectorDeployments_result
                              ConnectorDisableCascadeDelete fleet.service db.background
                              fleet.store fleet.by_id ["ns-1"] fleet.id_is_ns1)
                           (proj1 fleet_by_id_bound) (proj2 fleet_by_id_bound))
                    (ex_intro _ fleet.ns1 fleet_ns1_matched))
      as (ctx' & db' & Hphase & _ & Hcascade).
    destruct (Hphase 0%nat fleet.ns1 eq_refl fleet_ns1_matched) as (ns' & Hrow & Hdel & _).
    exists ctx', db', ns'. split; [|split; assumption].
    apply Hcascade. exists fleet.c1. exact fleet_c1_cascaded.
Defined.

(** The connector c-1 of ns-1 gets the desired state "deleted", its status
    and the deployment status kept under the id c-1 get phase "deleting";
    the deployment status dep-2 of the same connector stays "ready". *)
Lemma cascade_marks_connectors_witness :
  exists ctx' db',
    DeleteNamespaceAndConnectorDeployments ConnectorDisableCascadeDelete fleet.service
      db.background fleet.store fleet.by_id ["ns-1"] = (true, true, None, ctx', db') /\
    (exists c', nth_error (connectors db') 0 = Some c' /\ c_DesiredState c' = "deleted") /\
    (exists s', nth_error (connector_statuses db') 0 = Some s' /\
                cs_Phase s' = "deleting") /\
    (exists d', nth_error (connector_deployment_statuses db') 0 = Some d' /\
                ds_Phase d' = "deleting") /\
    ds_ConnectorID fleet.d2 = c_ID fleet.c1 /\
    nth_error (connector_deployment_statuses db') 1 = Some fleet.d2 /\
    ds_Phase fleet.d2 = "ready".
Proof.
  destruct (cascade_marks_connectors ConnectorDisableCascadeDelete fleet.service
              db.background fleet.store fleet.by_id ["ns-1"] fleet.id_is_ns1
              (proj1 fleet_by_id_bound) (proj2 fleet_by_id_bound)
              (ex_intro _ fleet.c1 fleet_c1_cascaded))
    as (ctx' & db' & Heq & Hc & Hs & Hd & Hmissed).
  exists ctx', db'. split; [exact Heq|].
  split; [|split; [|split; [|split; [reflexivity | split; [|reflexivity]]]]].
  - destruct (Hc 0%nat fleet.c1 eq_refl fleet_c1_cascaded) as (c' & Hrow & Hstate & _).
    exists c'. split; [exact Hrow | exact Hstate].
  - destruct (Hs 0%nat fleet.s1 fleet.c1 eq_refl eq_refl fleet_c1_cascaded eq_refl)
      as (s' & Hrow & Hphase & _).
    exists s'. split; assumption.
  - destruct (Hd 0%nat fleet.d1 fleet.c1 eq_refl eq_refl fleet_c1_cascaded eq_refl)
      as (d' & Hrow & Hphase & _).
    exists d'. split; assumption.
  - apply (Hmissed 1%nat fleet.d2 eq_refl).
    intros c [[Hin _] _]. simpl in Hin. destruct Hin as [<-|[<-|[]]]; discriminate.
Defined.

(** One notification, for cluster-a, and only on commit. *)
Lemma cascade_schedules_notifications_witness :
  exists ctx' db',
    DeleteNamespaceAndConnectorDeployments ConnectorDisableCascadeDelete fleet.service
      db.background fleet.store fleet.by_id ["ns-1"] = (true, true, None, ctx', db') /\
    db.Commit ctx' [] = ["/kafka_connector_clusters/cluster-a/deployments"] /\
    db.Rollback ctx' [] = [].
Proof.
  destruct (cascade_schedules_notifications ConnectorDisableCascadeDelete fleet.service
              db.background fleet.store fleet.by_id ["ns-1"] fleet.id_is_ns1
              (proj1 fleet_by_id_bound) (proj2 fleet_by_id_bound)
              (ex_intro _ fleet.c1 fleet_c1_cascaded))
    as (ctx' & db' & clusters & Heq & _ & _ & _ & _ & _ & Hrollback).
  exists ctx', db'. split; [exact Heq|]. split; [|apply Hrollback].
  rewrite (cascade_result ConnectorDisableCascadeDelete fleet.service db.background
             fleet.store fleet.by_id ["ns-1"] fleet.id_is_ns1 eq_refl
             (ex_intro _ fleet.c1 fleet_c1_cascaded)) in Heq.
  injection Heq as <- _. vm_compute. reflexivity.
Defined.

(** No record has the id ns-9. *)
Lemma Get_absent_is_GeneralError_witness :
  Get fleet.service fleet.store "ns-9" = (None, Some errors.GeneralError) /\
  errors.Code errors.GeneralError <> errors.ErrorNotFound.
Proof.
  apply (Get_absent_is_GeneralError fleet.service fleet.store "ns-9").
  - discriminate.
  - intros ns [Hin _]. simpl in Hin.
    destruct Hin as [<-|[<-|[<-|[]]]]; discriminate.
Defined.

(** At time 200, ns-1 has expired. *)
Lemma GetExpiredNamespaceIds_evicts_witness :
  exists ids db',
    GetExpiredNamespaceIds fleet.service 200 fleet.store = (ids, None, db') /\
    In "ns-1" ids /\ ~ In "ns-2" ids /\
    exists ns',
      nth_error (connector_namespaces db') 0 = Some ns' /\
      nss_Phase (ns_Status ns') = "deleting".
Proof.
  destruct (GetExpiredNamespaceIds_evicts fleet.service 200 fleet.store fleet_ids_unique)
    as (ids & db' & Heq & _ & Hids & Hphase & Hkept & _).
  exists ids, db'. split; [exact Heq|]. split; [|split].
  - apply Hids. exists fleet.ns1, 100.
    split; [split; [left; reflexivity | reflexivity]|].
    split; [reflexivity|]. split; [reflexivity | lia].
  - apply (Hkept 1%nat fleet.ns2); [reflexivity | left; reflexivity].
  - destruct (Hphase 0%nat fleet.ns1 100) as (ns' & Hrow & Hdel & _);
      [reflexivity | split; [left; reflexivity | reflexivity] | reflexivity | lia |].
    exists ns'. split; assumption.
Defined.



Lemma fleet_ns1_profile : namespace_profile fleet.profile_key fleet.store "ns-1" "eval".
Proof.
  split.
  - eexists. split; [left; reflexivity|]. repeat split.
  - intros a Hin Hn _. simpl in Hin.
    destruct Hin as [<-|[<-|[]]]; [reflexivity | discriminate].
Defined.

Lemma fleet_ns2_profile : namespace_profile fleet.profile_key fleet.store "ns-2" "gone".
Proof.
  split.
  - eexists. split; [right; left; reflexivity|]. repeat split.
  - intros a Hin Hn _. simpl in Hin.
    destruct Hin as [<-|[<-|[]]]; [discriminate | reflexivity].
Defined.

(** ns-1 holds two connectors under a cap of one. *)
Lemma CheckConnectorQuota_cap_witness :
  CheckConnectorQuota fleet.profile_key fleet.service fleet.store "ns-1"
  = Some errors.InsufficientQuotaError.
Proof.
  apply (proj1 (proj2 (CheckConnectorQuota_cap fleet.profile_key fleet.service fleet.store
                         "ns-1" "eval" {| Connectors := 1 |} true
                         fleet_ns1_profile eq_refl))).
  - simpl. lia.
  - vm_compute. discriminate.
Defined.

(** The profile "gone" of ns-2 is unknown to the resolver. *)
Lemma CheckConnectorQuota_unknown_profile_witness :
  CheckConnectorQuota fleet.profile_key fleet.service fleet.store "ns-2" = None.
Proof.
  apply (CheckConnectorQuota_unknown_profile fleet.profile_key fleet.service fleet.store
           "ns-2" "gone" fleet_ns2_profile eq_refl).
Defined.

(** alice owns the evaluation namespace ns-1 on cluster-a. *)
Lemma CanCreateEvalNamespace_iff_witness :
  CanCreateEvalNamespace fleet.service fleet.store "alice"
  = Some errors.InsufficientQuotaError /\
  CanCreateEvalNamespace fleet.service fleet.store "bob" = None.
Proof.
  split.
  - apply (proj1 (CanCreateEvalNamespace_iff fleet.service fleet.store "alice")).
    exists fleet.ns1. eexists. split; [left; reflexivity|].
    split; [left; reflexivity|]. repeat split; try discriminate.
    left. reflexivity.
  - apply (proj2 (CanCreateEvalNamespace_iff fleet.service fleet.store "bob")).
    intros (ns & cl & Hns & Hcl & Hu & _ & He & Hid & _ & Ho).
    simpl in Hns, Hcl, Ho.
    destruct Hns as [<-|[<-|[<-|[]]]]; try discriminate.
    apply He. reflexivity.
Defined.

(** On the small fleet the only eligible cluster is cluster-a. *)
Lemma SetEvalClusterId_allocates_witness :
  exists request',
    SetEvalClusterId fleet.profile_key fleet.service fleet.store 500 7 fleet.ns2
    = (request', None) /\
    ns_ClusterId request' = "cluster-a" /\
    ns_Expiration request' = Some 1500 /\
    SetEvalClusterId fleet.profile_key fleet.service fleet.empty 500 7 fleet.ns2
    = (fleet.ns2, Some errors.Unauthorized).
Proof.
  pose proof (SetEvalClusterId_allocates fleet.profile_key fleet.service fleet.empty
                500 7 fleet.ns2) as [Hnone _].
  pose proof (SetEvalClusterId_allocates fleet.profile_key fleet.service fleet.store
                500 7 fleet.ns2) as [_ Hsome].
  assert (Hcl : eval_cluster (connectorsConfig fleet.service) fleet.store
                  {| cl_ID := "cluster-a"; cl_DeletedAt := None; cl_Owner := "ops";
                     cl_OrganisationId := "org-eval"; cl_Status_Phase := "ready" |}).
  { split; [left; reflexivity|]. split; [reflexivity | left; reflexivity]. }
  destruct (Hsome (ex_intro _ _ Hcl)) as (request' & Heq & _ & Honly & Hexp & _).
  exists request'. split; [exact Heq|]. split; [|split; [exact Hexp|]].
  - apply (Honly _ Hcl). intros cl' (Hin & _ & Ho). simpl in Hin, Ho.
    destruct Hin as [<-|[<-|[]]]; [reflexivity|].
    destruct Ho as [Ho|[]]. discriminate.
  - apply Hnone. intros cl (Hin & _). destruct Hin.
Defined.

(** The service run on the small fleet. *)

Example GetExpiredNamespaceIds_fleet :
  fst (fst (GetExpiredNamespaceIds fleet.service 200 fleet.store)) = ["ns-1"].
Proof. reflexivity. Qed.

Example Get_ns2_fleet :
  Get fleet.service fleet.store "ns-2"
  = (Some (ns_with_Tenants (Some {| tu_ID := "bob" |}) None
             (ns_with_Annotations
                [{| ann_NamespaceId := "ns-2"; ann_Key := fleet.profile_key;
                    ann_Value := "gone" |}] fleet.ns2)), None).
Proof. reflexivity. Qed.

(** With the zero id, [First] has no condition: the first record comes back. *)
Example Get_zero_id_fleet :
  fst (Get fleet.service fleet.store "") = Some (Preload fleet.store fleet.ns1).
Proof. reflexivity. Qed.

Example Get_soft_deleted_fleet :
  Get fleet.service fleet.store "ns-3" = (None, Some errors.GeneralError).
Proof. reflexivity. Qed.

Example delete_nothing_fleet :
  DeleteNamespaceAndConnectorDeployments ConnectorDisableCascadeDelete fleet.service
    db.background fleet.store fleet.by_id ["ns-9"]
  = (false, false, None, db.background, fleet.store).
Proof. reflexivity. Qed.

Example delete_ns2_fleet :
  let '(namespaceDeleted, connectorsDeleted, err, ctx', _) :=
    DeleteNamespaceAndConnectorDeployments ConnectorDisableCascadeDelete fleet.service
      db.background fleet.store fleet.by_id ["ns-2"] in
  (namespaceDeleted, connectorsDeleted, err, db.Commit ctx' [])
  = (true, false, None, []).
Proof. reflexivity. Qed.

(** A condition with no placeholder does not get past the first statement. *)
Example delete_all_fleet :
  DeleteNamespaceAndConnectorDeployments ConnectorDisableCascadeDelete fleet.service
    db.background fleet.store fleet.every_namespace []
  = (false, false, Some errors.GeneralError, db.background, fleet.store).
Proof. reflexivity. Qed.

Example reconcile_fleet :
  fst (fst (ReconcileDeletingNamespaces fleet.service 300 fleet.store)) = 1%nat.
Proof. reflexivity. Qed.

(* ===================================================================== *)
(** ** Get and GetNamespaceTenant, beyond the absent id *)
(* ===================================================================== *)

Lemma In_Preload_annotations (db : Store) (ns : ConnectorNamespace)
    (a : ConnectorNamespaceAnnotation) :
  In a (ns_Annotations (Preload db ns)) <->
  In a (connector_namespace_annotations db) /\ ann_NamespaceId a = ns_ID ns.
Proof.
  unfold Preload. cbn [ns_Annotations ns_with_Tenants ns_with_Annotations].
  rewrite filter_In, String.eqb_eq. reflexivity.
Qed.

Lemma First_inr {A} `{Schema A} (cond : A -> bool) (db : Store) (r : A) :
  First cond db = inr r ->
  stored db r /\ cond r = true /\
  exists rest, List.filter cond (scoped db) = r :: rest.
Proof.
  unfold First. destruct (List.filter cond (scoped db)) as [|r' rest] eqn:E; [discriminate|].
  intros [= <-].
  assert (Hin : In r' (List.filter cond (scoped db))) by (rewrite E; left; reflexivity).
  apply filter_In in Hin as [Hin Hc]. apply In_scoped in Hin. eauto.
Qed.

(** X1. For the id of a namespace in the store, [Get] returns that
    namespace: its columns as stored, its annotations exactly the
    annotation rows of the namespace, and its tenant user the row of
    [connector_tenant_users] the column points to, when there is one. *)
Theorem Get_loads_record (k : connectorNamespaceService) (db : Store)
    (ns : ConnectorNamespace) :
  namespace_ids_unique db -> stored db ns -> ns_ID ns <> "" ->
  exists r,
    Get k db (ns_ID ns) = (Some r, None) /\
    ns_with_Tenants (ns_TenantUser ns) (ns_TenantOrganisation ns)
      (ns_with_Annotations (ns_Annotations ns) r) = ns /\
    (forall a, In a (ns_Annotations r) <->
               In a (connector_namespace_annotations db) /\ ann_NamespaceId a = ns_ID ns) /\
    (forall u, ns_TenantUserId ns = Some u ->
               In {| tu_ID := u |} (connector_tenant_users db) ->
               ns_TenantUser r = Some {| tu_ID := u |}).
Proof.
  intros Huniq Hns Hid. exists (Preload db ns). split; [|split; [|split]].
  - unfold Get. rewrite (First_some _ db ns Hns).
    + reflexivity.
    + apply primary_key_cond_eq; auto.
    + intros r' [Hr' _] Hc. apply primary_key_cond_eq in Hc; [|assumption].
      destruct Hns as [Hns _].
      apply (unique_key_row ns_ID (connector_namespaces db)); assumption.
  - destruct ns; reflexivity.
  - intros a. apply In_Preload_annotations.
  - intros u Hu Hin. unfold Preload. cbn [ns_TenantUser ns_with_Tenants]. rewrite Hu.
    destruct (List.find (fun t => String.eqb (tu_ID t) u) (connector_tenant_users db))
      as [[v]|] eqn:E.
    + apply find_some in E as [_ E]. apply String.eqb_eq in E. simpl in E. now subst.
    + exfalso. apply (find_none _ _ E) in Hin. simpl in Hin.
      rewrite String.eqb_refl in Hin. discriminate.
Qed.

(** X2. Whatever the id, a namespace [Get] returns is a record of the
    store, never a soft-deleted row, and it carries the id asked for
    unless that id is empty. *)
Theorem Get_returns_stored (k : connectorNamespaceService) (db : Store)
    (namespaceID : string) (r : ConnectorNamespace)
    (err : option errors.ServiceError) :
  Get k db namespaceID = (Some r, err) ->
  err = None /\ ns_DeletedAt r = None /\
  (namespaceID <> "" -> ns_ID r = namespaceID) /\
  exists ns, stored db ns /\ r = Preload db ns.
Proof.
  unfold Get. destruct (First (primary_key_cond namespaceID) db) as [e|ns] eqn:E;
    [discriminate|].
  intros [= <- <-]. apply First_inr in E as [Hst [Hc _]].
  split; [reflexivity|]. split; [|split].
  - destruct Hst as [_ Hlive]. exact Hlive.
  - intros Hid. apply primary_key_cond_eq in Hc; assumption.
  - exists ns. auto.
Qed.

(** X3. With the empty id [Get] does not fail on a store that holds a
    namespace: its lookup has no condition then, and a namespace of the
    store comes back.  [GetNamespaceTenant] compares the id, and fails for the
    empty id unless a namespace has it. *)
Theorem Get_empty_id (k : connectorNamespaceService) (db : Store)
    (ns0 : ConnectorNamespace) :
  stored db ns0 ->
  (exists ns, stored db ns /\ Get k db "" = (Some (Preload db ns), None)) /\
  ((forall ns, stored db ns -> ns_ID ns <> "") ->
   exists e, GetNamespaceTenant k db "" = (None, Some e)).
Proof.
  intros Hns0. split.
  - unfold Get, First.
    destruct (List.filter (primary_key_cond "") (scoped db)) as [|r rest] eqn:E.
    + exfalso. apply (filter_not_nil (primary_key_cond "") (scoped db) ns0);
        [apply In_scoped; assumption | reflexivity | assumption].
    + exists r. split; [|reflexivity].
      assert (Hin : In r (List.filter (primary_key_cond "") (scoped db)))
        by (rewrite E; left; reflexivity).
      apply filter_In in Hin as [Hin _]. apply In_scoped. assumption.
  - intros Hno. unfold GetNamespaceTenant. rewrite First_none.
    + eexists. reflexivity.
    + intros r Hr. apply String.eqb_neq. apply Hno. assumption.
Qed.

(** X4. For the id of a namespace in the store, [GetNamespaceTenant]
    returns its id and its two tenant columns and nothing else: cluster,
    phase, expiration and annotations of the result are zero values. *)
Theorem GetNamespaceTenant_projection (k : connectorNamespaceService) (db : Store)
    (ns : ConnectorNamespace) :
  namespace_ids_unique db -> stored db ns ->
  exists r,
    GetNamespaceTenant k db (ns_ID ns) = (Some r, None) /\
    ns_ID r = ns_ID ns /\
    ns_TenantUserId r = ns_TenantUserId ns /\
    ns_TenantOrganisationId r = ns_TenantOrganisationId ns /\
    ns_with_Tenants None None
      (ns_with_Annotations [] (ns_with_ClusterId "" (ns_with_Expiration None
         (ns_with_Phase "" r)))) = r /\
    ns_Name r = "" /\ ns_Owner r = "" /\ ns_Version r = 0.
Proof.
  intros Huniq Hns. exists (select_tenant ns). split.
  - unfold GetNamespaceTenant. rewrite (First_some _ db ns Hns).
    + reflexivity.
    + apply String.eqb_refl.
    + intros r' [Hr' _] Hc. apply String.eqb_eq in Hc. destruct Hns as [Hns _].
      apply (unique_key_row ns_ID (connector_namespaces db)); assumption.
  - repeat split.
Qed.

(* ===================================================================== *)
(** ** List: filters and paging *)
(* ===================================================================== *)

Section listing_properties.

Import listing.

Variable Parse : string -> string + (ConnectorNamespace -> bool).
Variable ordered :
  list string -> option (list ConnectorNamespace -> list ConnectorNamespace).
Variable limit_zero_is_unlimited : bool.

Lemma int_small (z : Z) : - 2 ^ 63 <= z < 2 ^ 63 -> int z = z.
Proof. intros Hz. unfold int. rewrite Z.mod_small; lia. Qed.

Lemma string_length_0 (s : string) : Nat.ltb 0 (String.length s) = false <-> s = "".
Proof. destruct s; cbn; split; intros H; try reflexivity; discriminate. Qed.

Lemma all_of_app (c1 c2 : list (ConnectorNamespace -> bool)) (ns : ConnectorNamespace) :
  all_of (c1 ++ c2) ns = all_of c1 ns && all_of c2 ns.
Proof. unfold all_of. apply forallb_app. Qed.

Lemma filter_ext_scoped (f : ConnectorNamespace -> bool) (db : Store)
    (clusterIDs : list string) (q : ConnectorNamespace -> bool) (gtVersion : Z) :
  (forall ns, f ns = true <-> selects clusterIDs q gtVersion ns) ->
  List.filter f (scoped db) = selected db clusterIDs q gtVersion.
Proof.
  intros Hf. unfold scoped, selected. simpl table.
  induction (connector_namespaces db) as [|ns l IH]; [reflexivity|].
  cbn [List.filter deleted_at ConnectorNamespace_schema].
  destruct (ns_DeletedAt ns) as [t|] eqn:Hd; cbn [is_null].
  - rewrite bool_decide_eq_false_2 by (intros [H _]; discriminate). exact IH.
  - cbn [List.filter]. destruct (f ns) eqn:Ef.
    + rewrite bool_decide_eq_true_2 by (split; [reflexivity | apply Hf; assumption]).
      f_equal. exact IH.
    + rewrite bool_decide_eq_false_2; [exact IH|].
      intros [_ Hs]. apply Hf in Hs. congruence.
Qed.

(** The conditions [List] accumulates amount to [selects]. *)
Lemma conds_select (clusterIDs : list string) (q : ConnectorNamespace -> bool)
    (gtVersion : Z) (with_search : bool) (ns : ConnectorNamespace) :
  (with_search = false -> q ns = true) ->
  all_of
    (let conds := if negb (Nat.eqb (length clusterIDs) 0)
                  then [fun ns => IN (ns_ClusterId ns) clusterIDs] else [] in
     let conds := if with_search then (conds ++ [q])%list else conds in
     if negb (gtVersion =? 0)
     then (conds ++ [fun ns => gtVersion <? ns_Version ns])%list else conds) ns = true
  <-> selects clusterIDs q gtVersion ns.
Proof.
  intros Hq. unfold selects. cbv zeta.
  destruct (gtVersion =? 0) eqn:Eg; cbn [negb];
    [apply Z.eqb_eq in Eg | apply Z.eqb_neq in Eg];
    destruct clusterIDs as [|c cl]; cbn [length Nat.eqb negb];
    destruct with_search;
    rewrite ?all_of_app; unfold all_of; cbn [forallb app];
    rewrite ?andb_true_iff, ?andb_true_r, ?IN_In, ?Z.ltb_lt;
    try (specialize (Hq eq_refl)); intuition (try congruence; try discriminate).
Qed.

(** [List] on a search that stands for [q]: the rows and the paging
    metadata, or the failure of the statement when the engine rejects an
    order-by clause. *)
Lemma List_shape (k : connectorNamespaceService) (db : Store) (clusterIDs : list string)
    (la : ListArguments) (gtVersion : Z) (q : ConnectorNamespace -> bool) :
  parsed Parse la q ->
  let sel := selected db clusterIDs q gtVersion in
  let total := Z.of_nat (length sel) in
  let size := if total <? Size la then total else Size la in
  List Parse ordered limit_zero_is_unlimited k db clusterIDs la gtVersion =
  match ordered (order_clauses la) with
  | None => ([], None, Some (Failed errors.GeneralError))
  | Some sort =>
      (List.map (Preload db)
         (Limit limit_zero_is_unlimited size
            (Offset (int (int (Page la - 1) * size)) (sort sel))),
       Some {| pm_Page := Page la; pm_Size := size; pm_Total := total |}, None)
  end.
Proof.
  intros Hp sel total size. unfold List, Count, Find.
  assert (Ho : ((if Nat.eqb (length (OrderBy la)) 0 then ["name ASC"] else []) ++
                OrderBy la)%list = order_clauses la).
  { unfold order_clauses. destruct (OrderBy la); reflexivity. }
  rewrite Ho. clear Ho. cbn [pm_Page pm_Size pm_Total app].
  destruct Hp as [[Hs ->]|[Hs Hq]].
  - apply string_length_0 in Hs. rewrite Hs.
    rewrite (filter_ext_scoped _ db clusterIDs (fun _ => true) gtVersion)
      by (intros ns; apply (conds_select clusterIDs (fun _ => true) gtVersion false);
          reflexivity).
    destruct (ordered (order_clauses la)); reflexivity.
  - destruct (Nat.ltb 0 (String.length (Search la))) eqn:El;
      [|apply string_length_0 in El; contradiction].
    rewrite Hq.
    rewrite (filter_ext_scoped _ db clusterIDs q gtVersion)
      by (intros ns; apply (conds_select clusterIDs q gtVersion true); discriminate).
    destruct (ordered (order_clauses la)); reflexivity.
Qed.

Lemma In_selected (db : Store) (clusterIDs : list string)
    (q : ConnectorNamespace -> bool) (gtVersion : Z) (ns : ConnectorNamespace) :
  In ns (selected db clusterIDs q gtVersion) <->
  stored db ns /\ selects clusterIDs q gtVersion ns.
Proof.
  unfold selected, stored. rewrite filter_In, bool_decide_eq_true. simpl. tauto.
Qed.


Lemma In_skipn {A} (n : nat) (l : list A) (x : A) : In x (skipn n l) -> In x l.
Proof.
  intros H. rewrite <- (firstn_skipn n l). apply in_or_app. right. assumption.
Qed.

Lemma In_firstn_list {A} (n : nat) (l : list A) (x : A) : In x (firstn n l) -> In x l.
Proof.
  intros H. rewrite <- (firstn_skipn n l). apply in_or_app. left. assumption.
Qed.

Lemma In_Limit {A} (n : Z) (l : list A) (x : A) :
  In x (Limit limit_zero_is_unlimited n l) -> In x l.
Proof.
  unfold Limit. destruct (0 <? n); [apply In_firstn_list|].
  destruct ((n =? 0) && negb limit_zero_is_unlimited); [intros [] | auto].
Qed.

Lemma In_Offset {A} (n : Z) (l : list A) (x : A) : In x (Offset n l) -> In x l.
Proof. unfold Offset. destruct (0 <? n); [apply In_skipn | auto]. Qed.

(** X5. When the search parses and the engine accepts the order-by
    clauses, [List] succeeds and its paging metadata report the page asked
    for, the number of namespaces the filters select as total, and as size
    the size asked for clamped down to that total.  When the engine
    rejects an order-by clause, [List] returns neither rows nor metadata
    but a [GeneralError]. *)
Theorem List_paging_meta (k : connectorNamespaceService) (db : Store)
    (clusterIDs : list string) (la : ListArguments) (gtVersion : Z)
    (q : ConnectorNamespace -> bool) :
  parsed Parse la q ->
  (ordered (order_clauses la) = None ->
   List Parse ordered limit_zero_is_unlimited k db clusterIDs la gtVersion
   = ([], None, Some (Failed errors.GeneralError))) /\
  (ordered (order_clauses la) <> None ->
   exists rows meta,
     List Parse ordered limit_zero_is_unlimited k db clusterIDs la gtVersion
     = (rows, Some meta, None) /\
     pm_Page meta = Page la /\
     pm_Total meta = Z.of_nat (length (selected db clusterIDs q gtVersion)) /\
     pm_Size meta = Z.min (Size la) (pm_Total meta)).
Proof.
  intros Hp. rewrite (List_shape k db clusterIDs la gtVersion q Hp).
  destruct (ordered (order_clauses la)) as [sort|].
  - split; [discriminate|]. intros _.
    eexists _, _. split; [reflexivity|]. cbn [pm_Page pm_Size pm_Total].
    split; [reflexivity|]. split; [reflexivity|].
    destruct (Z.of_nat (length (selected db clusterIDs q gtVersion)) <? Size la) eqn:E;
      [apply Z.ltb_lt in E | apply Z.ltb_ge in E]; lia.
  - split; [reflexivity | congruence].
Qed.

(** X6. Every row [List] returns is a namespace of the store that passes
    all the filters: on one of the clusters asked for when clusters are
    given, matching the search, and of a version above [gtVersion] when
    that is not zero; it comes with its annotations loaded. *)
Theorem List_rows_selected (k : connectorNamespaceService) (db : Store)
    (clusterIDs : list string) (la : ListArguments) (gtVersion : Z)
    (q : ConnectorNamespace -> bool) (r : ConnectorNamespace) :
  (forall o sort l, ordered o = Some sort -> Permutation (sort l) l) ->
  parsed Parse la q ->
  In r (fst (fst (List Parse ordered limit_zero_is_unlimited k db clusterIDs la
                    gtVersion))) ->
  exists ns,
    r = Preload db ns /\ stored db ns /\
    (clusterIDs <> [] -> In (ns_ClusterId ns) clusterIDs) /\
    q ns = true /\
    (gtVersion <> 0 -> gtVersion < ns_Version ns).
Proof.
  intros Hord Hp. rewrite (List_shape k db clusterIDs la gtVersion q Hp).
  destruct (ordered (order_clauses la)) as [sort|] eqn:Eo; cbn [fst]; [|intros []].
  rewrite in_map_iff. intros [ns [<- Hin]].
  apply In_Limit, In_Offset in Hin.
  apply (Permutation_in _ (Hord _ _ _ Eo)) in Hin.
  apply In_selected in Hin as [Hst [Hc [Hq Hv]]].
  exists ns. auto.
Qed.

(** The rows of a page from the first on: the slice of the ordered
    selection that starts after the pages before it. *)
Lemma List_page (k : connectorNamespaceService) (db : Store)
    (clusterIDs : list string) (la : ListArguments) (gtVersion : Z)
    (q : ConnectorNamespace -> bool)
    (sort : list ConnectorNamespace -> list ConnectorNamespace) :
  ordered (order_clauses la) = Some sort ->
  (forall l, Permutation (sort l) l) ->
  parsed Parse la q ->
  1 <= Page la -> 1 <= Size la -> (Page la - 1) * Size la < 2 ^ 63 ->
  let n := page_rows db clusterIDs q gtVersion la in
  fst (fst (List Parse ordered limit_zero_is_unlimited k db clusterIDs la gtVersion))
  = List.map (Preload db)
      (firstn n (skipn (Z.to_nat (Page la - 1) * n)
                   (sort (selected db clusterIDs q gtVersion)))).
Proof.
  intros Eo Hord Hp Hpage Hsize Hover n.
  rewrite (List_shape k db clusterIDs la gtVersion q Hp), Eo. cbn [fst].
  set (sel := selected db clusterIDs q gtVersion) in *.
  set (total := Z.of_nat (length sel)).
  set (size := if total <? Size la then total else Size la).
  assert (Hn : size = Z.of_nat n).
  { unfold size, n, page_rows. fold sel.
    destruct (total <? Size la) eqn:E; [apply Z.ltb_lt in E | apply Z.ltb_ge in E];
      unfold total in *; lia. }
  assert (Hsz : 0 <= size <= Size la).
  { unfold size. destruct (total <? Size la) eqn:E;
      [apply Z.ltb_lt in E | apply Z.ltb_ge in E]; unfold total in *; lia. }
  assert (Hoff : int (int (Page la - 1) * size) = Z.of_nat (Z.to_nat (Page la - 1) * n)).
  { assert (Hle : (Page la - 1) * size <= (Page la - 1) * Size la)
      by (apply Z.mul_le_mono_nonneg_l; lia).
    assert (Hp1 : Page la - 1 <= (Page la - 1) * Size la) by nia.
    assert (H0 : 0 <= (Page la - 1) * size) by (apply Z.mul_nonneg_nonneg; lia).
    rewrite (int_small (Page la - 1)) by lia.
    rewrite int_small by lia.
    rewrite Hn, Nat2Z.inj_mul, Z2Nat.id by lia. reflexivity. }
  rewrite Hoff. f_equal.
  destruct (Nat.eq_dec n 0%nat) as [Hz|Hz].
  - (* nothing is selected: every reading of a zero limit gives no row *)
    assert (Hsel : sel = []).
    { unfold n, page_rows in Hz. fold sel in Hz.
      destruct sel; [reflexivity | simpl in Hz; lia]. }
    assert (Hnil : sort sel = []).
    { rewrite Hsel. apply Permutation_nil. symmetry. apply Hord. }
    rewrite Hnil, Hz. unfold Offset, Limit.
    destruct (0 <? _); destruct (0 <? _); rewrite ?skipn_nil, ?firstn_nil;
      try reflexivity; destruct (andb _ _); reflexivity.
  - unfold Limit. rewrite Hn.
    assert (E : (0 <? Z.of_nat n) = true) by (apply Z.ltb_lt; lia).
    rewrite E, Nat2Z.id. f_equal.
    unfold Offset.
    generalize (Z.to_nat (Page la - 1) * n)%nat. intros [|m]; [reflexivity|].
    assert (Em : (0 <? Z.of_nat (S m)) = true) by (apply Z.ltb_lt; lia).
    rewrite Em, Nat2Z.id. reflexivity.
Qed.

(** X7. Where the engine accepts the order-by clauses: a page from the
    first on, of a positive size, holds the rows of the ordered selection
    from position (page - 1) * size on, at most size of them, where size
    is the size asked for clamped to the total.  So a page is never longer
    than the size the metadata report. *)
Theorem List_page_slice (k : connectorNamespaceService) (db : Store)
    (clusterIDs : list string) (la : ListArguments) (gtVersion : Z)
    (q : ConnectorNamespace -> bool)
    (sort : list ConnectorNamespace -> list ConnectorNamespace) :
  ordered (order_clauses la) = Some sort ->
  (forall l, Permutation (sort l) l) ->
  parsed Parse la q ->
  1 <= Page la -> 1 <= Size la -> (Page la - 1) * Size la < 2 ^ 63 ->
  exists rows meta,
    List Parse ordered limit_zero_is_unlimited k db clusterIDs la gtVersion
    = (rows, Some meta, None) /\
    rows = List.map (Preload db)
             (firstn (Z.to_nat (pm_Size meta))
                (skipn (Z.to_nat ((Page la - 1) * pm_Size meta))
                   (sort (selected db clusterIDs q gtVersion)))) /\
    Z.of_nat (length rows) <= pm_Size meta /\
    (Page la = 1 -> Z.of_nat (length rows) = pm_Size meta).
Proof.
  intros Eo Hord Hp Hpage Hsize Hover.
  pose proof (List_page k db clusterIDs la gtVersion q sort Eo Hord Hp Hpage Hsize Hover)
    as Hrows.
  cbv zeta in Hrows.
  rewrite (List_shape k db clusterIDs la gtVersion q Hp), Eo in *. cbn [fst] in Hrows.
  eexists _, _. split; [reflexivity|]. cbn [pm_Size].
  set (sel := selected db clusterIDs q gtVersion) in *.
  set (n := page_rows db clusterIDs q gtVersion la) in *.
  assert (Hn : (if Z.of_nat (length sel) <? Size la then Z.of_nat (length sel)
                else Size la) = Z.of_nat n).
  { unfold n, page_rows. fold sel.
    destruct (Z.of_nat (length sel) <? Size la) eqn:E;
      [apply Z.ltb_lt in E | apply Z.ltb_ge in E]; lia. }
  rewrite Hrows, Hn, Nat2Z.id.
  replace (Z.to_nat ((Page la - 1) * Z.of_nat n)) with (Z.to_nat (Page la - 1) * n)%nat
    by (rewrite Z2Nat.inj_mul, Nat2Z.id by lia; reflexivity).
  split; [reflexivity|].
  rewrite length_map, length_firstn. split; [lia|].
  intros Hone. rewrite Hone. change (Z.to_nat (1 - 1)) with 0%nat.
  rewrite Nat.mul_0_l, skipn_O.
  assert (Hlen : length (sort sel) = length sel)
    by (apply Permutation_length, Hord).
  rewrite Hlen. unfold n, page_rows. fold sel. lia.
Qed.

(** X8. A page number below one is served like the first page: the
    offset it gives is not positive, and no [OFFSET] is rendered. *)
Theorem List_page_below_one (k : connectorNamespaceService) (db : Store)
    (clusterIDs : list string) (la : ListArguments) (gtVersion : Z)
    (q : ConnectorNamespace -> bool) :
  parsed Parse la q ->
  - 2 ^ 31 <= Page la <= 1 -> 0 <= Size la < 2 ^ 31 ->
  fst (fst (List Parse ordered limit_zero_is_unlimited k db clusterIDs la gtVersion))
  = fst (fst (List Parse ordered limit_zero_is_unlimited k db clusterIDs
                {| Page := 1; Size := Size la; Search := Search la;
                   OrderBy := OrderBy la |} gtVersion)).
Proof.
  intros Hp Hpage Hsize.
  assert (Hp1 : parsed Parse {| Page := 1; Size := Size la; Search := Search la;
                          OrderBy := OrderBy la |} q) by exact Hp.
  rewrite (List_shape k db clusterIDs la gtVersion q Hp).
  rewrite (List_shape k db clusterIDs _ gtVersion q Hp1).
  cbn [Page Size]. change (order_clauses {| Page := 1; Size := Size la;
    Search := Search la; OrderBy := OrderBy la |}) with (order_clauses la).
  destruct (ordered (order_clauses la)) as [sort|]; [|reflexivity]. cbn [fst].
  set (size := if _ <? Size la then _ else Size la).
  assert (Hsz : 0 <= size <= Size la).
  { unfold size. destruct (_ <? Size la) eqn:E;
      [apply Z.ltb_lt in E | apply Z.ltb_ge in E]; lia. }
  do 2 f_equal. unfold Offset.
  rewrite (int_small (Page la - 1)) by lia.
  rewrite (int_small ((Page la - 1) * size)) by nia.
  change (int (1 - 1)) with 0. rewrite Z.mul_0_l. change (int 0) with 0.
  destruct (0 <? (Page la - 1) * size) eqn:E; [apply Z.ltb_lt in E; nia | reflexivity].
Qed.


End listing_properties.

(* ===================================================================== *)
(** ** The connector catalog *)
(* ===================================================================== *)

Section catalog_properties.

Import catalog.

Variable env : Env.

Abbreviation id_of e := (Id (ConnectorType_ e)).

Lemma loaded_empty : loaded ∅ [].
Proof.
  split; [|constructor]. intros id. rewrite lookup_empty. simpl. tauto.
Qed.

Lemma loaded_insert (tl : gmap string string) (vs : list ConnectorCatalogEntry)
    (e : ConnectorCatalogEntry) (file : string) :
  loaded tl vs -> tl !! id_of e = None ->
  loaded (<[id_of e := file]> tl) (vs ++ [e]).
Proof.
  intros [Hdom Hnd] Hnew. split.
  - intros id. rewrite map_app, in_app_iff. simpl.
    destruct (decide (id_of e = id)) as [<-|Hne].
    + rewrite lookup_insert_eq. split; [discriminate | intros H; exfalso; apply H; auto].
    + rewrite lookup_insert_ne by assumption. rewrite Hdom. tauto.
  - rewrite map_app. simpl. apply NoDup_app. split; [assumption|]. split.
    + intros id Hin Hin'. apply list_elem_of_In in Hin.
      apply list_elem_of_In in Hin'. destruct Hin' as [<-|[]].
      apply Hdom in Hnew. contradiction.
    + apply NoDup_singleton.
Qed.

Lemma omap_cons_Some {A B} (f : A -> option B) (x : A) (y : B) (l : list A) :
  f x = Some y -> omap f (x :: l) = y :: omap f l.
Proof. intros H. cbn. rewrite H. reflexivity. Qed.

Lemma load_files_sound (dir : string) (files : list FileInfo) :
  forall tl vs tl' vs',
    loaded tl vs ->
    load_files env dir files tl vs = inr (tl', vs') ->
    loaded tl' vs' /\
    vs' = (vs ++ omap (file_entry env dir) (List.filter visible files))%list /\
    Forall (fun f => is_Some (file_entry env dir f)) (List.filter visible files).
Proof.
  induction files as [|f files IH]; intros tl vs tl' vs' Hl; cbn [load_files List.filter].
  - intros [= <- <-]. rewrite app_nil_r. auto.
  - destruct (IsDir f || String.prefix "." (Name f)) eqn:Eh.
    + replace (visible f) with false by (unfold visible; rewrite Eh; reflexivity).
      apply IH. assumption.
    + replace (visible f) with true by (unfold visible; rewrite Eh; reflexivity).
      destruct (ReadFile env (Join env dir (Name f))) as [e|buf] eqn:Er; [discriminate|].
      destruct (Unmarshal env buf) as [e|entry] eqn:Eu; [discriminate|].
      destruct (tl !! id_of entry) as [prev|] eqn:Et; [discriminate|].
      assert (Hfe : file_entry env dir f = Some entry)
        by (unfold file_entry; rewrite Er, Eu; reflexivity).
      intros Hload. apply IH in Hload as [Hl' [-> Hall]];
        [|apply loaded_insert; assumption].
      split; [assumption|]. split.
      * rewrite (omap_cons_Some _ _ _ _ Hfe), <- app_assoc. reflexivity.
      * constructor; [rewrite Hfe; eauto | assumption].
Qed.

Lemma load_files_complete (dir : string) (files : list FileInfo) :
  forall tl vs,
    loaded tl vs ->
    Forall (fun f => is_Some (file_entry env dir f)) (List.filter visible files) ->
    NoDup (List.map (fun e => id_of e)
             (vs ++ omap (file_entry env dir) (List.filter visible files))) ->
    exists tl',
      load_files env dir files tl vs
      = inr (tl', (vs ++ omap (file_entry env dir) (List.filter visible files))%list).
Proof.
  induction files as [|f files IH]; intros tl vs Hl; cbn [load_files List.filter].
  - intros _ _. rewrite app_nil_r. eauto.
  - destruct (IsDir f || String.prefix "." (Name f)) eqn:Eh.
    + replace (visible f) with false by (unfold visible; rewrite Eh; reflexivity).
      apply IH. assumption.
    + replace (visible f) with true by (unfold visible; rewrite Eh; reflexivity).
      intros Hall Hnd. apply Forall_cons in Hall as [[entry Hfe] Hall].
      rewrite (omap_cons_Some _ _ _ _ Hfe) in Hnd |- *.
      unfold file_entry in Hfe.
      destruct (ReadFile env (Join env dir (Name f))) as [e|buf]; [discriminate|].
      destruct (Unmarshal env buf) as [e|entry']; [discriminate|].
      injection Hfe as ->.
      replace (vs ++ entry :: omap (file_entry env dir) (List.filter visible files))%list
        with ((vs ++ [entry]) ++ omap (file_entry env dir) (List.filter visible files))%list
        in Hnd |- * by (rewrite <- app_assoc; reflexivity).
      assert (Hnew : tl !! id_of entry = None).
      { apply Hl. intros Hin. rewrite !map_app in Hnd.
        apply NoDup_app in Hnd as [Hnd _]. apply NoDup_app in Hnd as [_ [Hdis _]].
        apply (Hdis (id_of entry)); [apply list_elem_of_In; assumption|].
        simpl. left. }
      rewrite Hnew. apply IH; [apply loaded_insert; assumption | assumption | assumption].
Qed.

Lemma load_dirs_sound (dirs : list string) :
  forall tl vs tl' vs',
    loaded tl vs ->
    load_dirs env dirs tl vs = inr (tl', vs') ->
    loaded tl' vs' /\
    vs' = (vs ++ catalog_entries env dirs)%list /\
    Forall (dir_readable env) dirs.
Proof.
  induction dirs as [|dir dirs IH]; intros tl vs tl' vs' Hl; cbn [load_dirs].
  - intros [= <- <-]. unfold catalog_entries. simpl. rewrite app_nil_r. auto.
  - destruct (ReadDir env (BuildFullFilePath env dir)) as [e|files] eqn:Ed; [discriminate|].
    destruct (load_files env (BuildFullFilePath env dir) files tl vs)
      as [e|[tl1 vs1]] eqn:Ef; [discriminate|].
    apply (load_files_sound _ _ _ _ _ _ Hl) in Ef as [Hl1 [-> Hall]].
    intros Hload. apply (IH _ _ _ _ Hl1) in Hload as [Hl' [-> Hdirs]].
    split; [assumption|]. split.
    + unfold catalog_entries. cbn [flat_map]. unfold dir_entries at 2. rewrite Ed.
      rewrite <- app_assoc. reflexivity.
    + constructor; [|assumption]. exists files. auto.
Qed.

Lemma load_dirs_complete (dirs : list string) :
  forall tl vs,
    loaded tl vs ->
    Forall (dir_readable env) dirs ->
    NoDup (List.map (fun e => id_of e) (vs ++ catalog_entries env dirs)) ->
    exists tl', load_dirs env dirs tl vs = inr (tl', (vs ++ catalog_entries env dirs)%list).
Proof.
  induction dirs as [|dir dirs IH]; intros tl vs Hl; cbn [load_dirs].
  - intros _ _. unfold catalog_entries. simpl. rewrite app_nil_r. eauto.
  - intros Hall Hnd. apply Forall_cons in Hall as [[files [Ed Hfiles]] Hall].
    rewrite Ed. unfold catalog_entries in Hnd |- *. cbn [flat_map] in Hnd |- *.
    unfold dir_entries at 1 in Hnd. unfold dir_entries at 1. rewrite Ed in Hnd |- *.
    rewrite app_assoc in Hnd |- *.
    destruct (load_files_complete (BuildFullFilePath env dir) files tl vs Hl Hfiles)
      as [tl1 Hf].
    { rewrite map_app in Hnd. apply NoDup_app in Hnd as [Hnd _]. exact Hnd. }
    rewrite Hf.
    assert (Hl1 : loaded tl1
              (vs ++ omap (file_entry env (BuildFullFilePath env dir))
                      (List.filter visible files))).
    { apply (load_files_sound _ _ _ _ _ _ Hl Hf). }
    apply (IH _ _ Hl1 Hall Hnd).
Qed.

(** Go's order on strings, through [String.compare]. *)
Lemma string_ltb_lt (a b : string) :
  String.ltb a b = true <-> OrderedTypeEx.String_as_OT.lt a b.
Proof.
  unfold String.ltb. rewrite <- OrderedTypeEx.String_as_OT.cmp_lt.
  unfold OrderedTypeEx.String_as_OT.cmp.
  destruct (String.compare a b); split; congruence.
Qed.

Lemma string_leb_iff (a b : string) :
  String.leb a b = true <-> String.ltb a b = true \/ a = b.
Proof.
  unfold String.leb, String.ltb.
  pose proof (OrderedTypeEx.String_as_OT.cmp_eq a b) as He.
  unfold OrderedTypeEx.String_as_OT.cmp in He.
  destruct (String.compare a b); split; intros H; try discriminate; auto.
  - right. apply He. reflexivity.
  - destruct H as [H|H]; [discriminate | apply He in H; discriminate].
Qed.

Lemma string_ltb_trans (a b c : string) :
  String.ltb a b = true -> String.ltb b c = true -> String.ltb a c = true.
Proof.
  rewrite !string_ltb_lt. apply OrderedTypeEx.String_as_OT.lt_trans.
Qed.

Lemma string_ltb_irrefl (a : string) : String.ltb a a = false.
Proof.
  unfold String.ltb.
  pose proof (proj2 (OrderedTypeEx.String_as_OT.cmp_eq a a) eq_refl) as He.
  unfold OrderedTypeEx.String_as_OT.cmp in He. rewrite He. reflexivity.
Qed.

#[local] Instance by_id_total : Total by_id.
Proof. intros a b. unfold by_id. apply String.leb_total. Qed.

#[local] Instance by_id_trans : Transitive by_id.
Proof.
  intros a b c. unfold by_id. rewrite !string_leb_iff.
  intros [H1|H1] [H2|H2].
  - left. eapply string_ltb_trans; eassumption.
  - left. rewrite <- H2. assumption.
  - left. rewrite H1. assumption.
  - right. congruence.
Qed.

#[local] Instance id_lt_trans : Transitive id_lt.
Proof. intros a b c. unfold id_lt. apply string_ltb_trans. Qed.

(** With each id once, ascending is strictly ascending. *)
Lemma sorted_strict (l : list ConnectorCatalogEntry) :
  NoDup (List.map (fun e => id_of e) l) -> StronglySorted by_id l -> StronglySorted id_lt l.
Proof.
  induction l as [|a l IH]; simpl; intros Hnd Hs; [constructor|].
  apply NoDup_cons in Hnd as [Ha Hnd]. apply StronglySorted_inv in Hs as [Hs Hall].
  constructor; [auto|].
  rewrite List.Forall_forall in Hall |- *. intros b Hb.
  specialize (Hall b Hb). unfold by_id in Hall. unfold id_lt.
  apply string_leb_iff in Hall as [Hlt|Heq]; [assumption|].
  exfalso. apply Ha. apply list_elem_of_In. rewrite Heq.
  apply (in_map (fun e => id_of e)). assumption.
Qed.

Lemma id_lt_NoDup (l : list ConnectorCatalogEntry) :
  StronglySorted id_lt l -> NoDup (List.map (fun e => id_of e) l).
Proof.
  induction 1 as [|a l Hs IH Hall]; simpl; [constructor|].
  apply NoDup_cons. split; [|assumption].
  intros Hin. apply list_elem_of_In, in_map_iff in Hin as [b [Hid Hb]].
  rewrite List.Forall_forall in Hall. specialize (Hall b Hb). unfold id_lt in Hall.
  rewrite Hid, string_ltb_irrefl in Hall. discriminate.
Qed.

(** What a successful load returns. *)
Lemma ReadFiles_inr (dirs : list string) (values : list ConnectorCatalogEntry) :
  ReadFiles env dirs = inr values ->
  StronglySorted id_lt values /\
  Permutation values (catalog_entries env dirs) /\
  Forall (dir_readable env) dirs.
Proof.
  unfold ReadFiles.
  destruct (load_dirs env dirs ∅ []) as [e|[tl vs]] eqn:E; [discriminate|].
  intros [= <-].
  apply (load_dirs_sound _ _ _ _ _ loaded_empty) in E as [[_ Hnd] [-> Hdirs]].
  simpl in Hnd |- *. split; [|split; [apply merge_sort_Permutation | assumption]].
  apply sorted_strict.
  - assert (Hp : Permutation
                   (List.map (fun e => id_of e) (merge_sort by_id (catalog_entries env dirs)))
                   (List.map (fun e => id_of e) (catalog_entries env dirs)))
      by apply Permutation_map, merge_sort_Permutation.
    rewrite Hp. exact Hnd.
  - apply StronglySorted_merge_sort; apply _.
Qed.

(** X10. The catalog a successful [ReadFiles] stores is in strictly
    ascending order of connector type id: no id occurs twice. *)
Theorem ReadFiles_sorted (dirs : list string) (values : list ConnectorCatalogEntry) :
  ReadFiles env dirs = inr values ->
  StronglySorted id_lt values /\
  NoDup (List.map (fun e => Id (ConnectorType_ e)) values).
Proof.
  intros H. apply ReadFiles_inr in H as [Hs _]. split; [assumption|].
  apply id_lt_NoDup. assumption.
Qed.

(** X11. The catalog a successful [ReadFiles] stores holds the entries of
    the visible files of the catalog directories, each file once:
    directories and files whose name starts with a dot contribute nothing.
    Success also means that every directory could be listed and every
    visible file read and decoded. *)
Theorem ReadFiles_loads_visible_files (dirs : list string)
    (values : list ConnectorCatalogEntry) :
  ReadFiles env dirs = inr values ->
  Permutation values (catalog_entries env dirs) /\
  Forall (dir_readable env) dirs.
Proof. intros H. apply ReadFiles_inr in H as [_ H]. exact H. Qed.

(** X12. When two visible files of the catalog directories define the same
    connector type id, [ReadFiles] fails. *)
Theorem ReadFiles_duplicate_type (dirs : list string) :
  ~ NoDup (List.map (fun e => Id (ConnectorType_ e)) (catalog_entries env dirs)) ->
  exists err, ReadFiles env dirs = inl err.
Proof.
  intros Hdup. destruct (ReadFiles env dirs) as [err|values] eqn:E; [eauto|].
  exfalso. apply Hdup. apply ReadFiles_inr in E as [Hs [Hp _]].
  rewrite <- (Permutation_map (fun e => Id (ConnectorType_ e)) Hp).
  apply id_lt_NoDup. assumption.
Qed.

(** X13. When every catalog directory can be listed, every visible file
    read and decoded, and no two of them define the same connector type
    id, [ReadFiles] succeeds; a hidden file or a sub-directory, readable or
    not, does not matter. *)
Theorem ReadFiles_succeeds (dirs : list string) :
  Forall (dir_readable env) dirs ->
  NoDup (List.map (fun e => Id (ConnectorType_ e)) (catalog_entries env dirs)) ->
  exists values,
    ReadFiles env dirs = inr values /\
    Permutation values (catalog_entries env dirs).
Proof.
  intros Hall Hnd.
  destruct (load_dirs_complete dirs ∅ [] loaded_empty Hall Hnd) as [tl Hload].
  unfold ReadFiles. rewrite Hload. simpl. eexists. split; [reflexivity|].
  apply merge_sort_Permutation.
Qed.

(** X14. The catalog does not depend on the order of the catalog
    directories: two successful loads of the same directories, given in
    different orders, store the same list. *)
Theorem ReadFiles_order_independent (dirs dirs' : list string)
    (values values' : list ConnectorCatalogEntry) :
  Permutation dirs dirs' ->
  ReadFiles env dirs = inr values ->
  ReadFiles env dirs' = inr values' ->
  values = values'.
Proof.
  intros Hp H H'.
  apply ReadFiles_inr in H as [Hs [Hv _]]. apply ReadFiles_inr in H' as [Hs' [Hv' _]].
  apply (StronglySorted_unique_strong id_lt); [|assumption|assumption|].
  - intros a b _ _ Hab Hba. exfalso. unfold id_lt in *.
    pose proof (string_ltb_trans _ _ _ Hab Hba) as Haa.
    rewrite string_ltb_irrefl in Haa. discriminate.
  - rewrite Hv, Hv'. unfold catalog_entries.
    apply Permutation_flat_map. assumption.
Qed.

End catalog_properties.

(* ===================================================================== *)
(** ** Edge cases of the quota checks and of the allocation *)
(* ===================================================================== *)

(** X15. A namespace without a quota-profile annotation fails the check
    with [FailedToCheckQuota], whatever the profiles the resolver knows and
    however few connectors the namespace holds. *)
Theorem CheckConnectorQuota_no_annotation (AnnotationProfileKey : string)
    (k : connectorNamespaceService) (db : Store) (namespaceId : string) :
  (forall a, In a (connector_namespace_annotations db) ->
             ann_NamespaceId a = namespaceId -> ann_Key a <> AnnotationProfileKey) ->
  CheckConnectorQuota AnnotationProfileKey k db namespaceId
  = Some errors.FailedToCheckQuota.
Proof.
  intros Hno. unfold CheckConnectorQuota. rewrite First_none; [reflexivity|].
  intros a [Hin _]. simpl in Hin.
  destruct (String.eqb (ann_NamespaceId a) namespaceId) eqn:En; [|reflexivity].
  apply String.eqb_eq in En. simpl. apply String.eqb_neq. auto.
Qed.

(** X16. With no evaluation organisation configured, no evaluation
    namespace can be placed: [SetEvalClusterId] fails with
    [UnauthorizedError] on every store and leaves the request as it was,
    while [CanCreateEvalNamespace] lets every user through. *)
Theorem no_eval_organisations (AnnotationProfileKey : string)
    (k : connectorNamespaceService) (db : Store) (now : Time) (seed : nat)
    (request : ConnectorNamespace) (userId : string) :
  ConnectorEvalOrganizations (connectorsConfig k) = [] ->
  SetEvalClusterId AnnotationProfileKey k db now seed request
  = (request, Some errors.Unauthorized) /\
  CanCreateEvalNamespace k db userId = None.
Proof.
  intros Horgs. split.
  - rewrite (SetEvalClusterId_shape AnnotationProfileKey k db now seed request []);
      [reflexivity|].
    unfold eval_cluster_ids. rewrite Horgs. f_equal.
    induction (connector_clusters db) as [|c l IH]; [reflexivity|].
    simpl. rewrite andb_false_r. exact IH.
  - unfold CanCreateEvalNamespace, count_eval_namespaces, eval_namespaces_of.
    rewrite Horgs.
    replace (List.filter _ _) with (@nil (ConnectorNamespace * ConnectorCluster));
      [reflexivity|].
    symmetry. apply filter_nil_iff. intros [ns cl] _. simpl.
    rewrite andb_false_r. reflexivity.
Qed.

(** The loop leaves alone a list whose first annotation under the key
    already has the value. *)
Lemma setProfileAnnotation_fixed (K profile : string)
    (anns : list ConnectorNamespaceAnnotation) (new : ConnectorNamespaceAnnotation) :
  ann_Key new = K -> ann_Value new = profile ->
  let r := setProfileAnnotation K profile anns in
  setProfileAnnotation K profile (if snd r then fst r else (fst r ++ [new])%list)
  = ((if snd r then fst r else (fst r ++ [new])%list), true).
Proof.
  intros Hk Hv. cbv zeta. induction anns as [|a l IH]; cbn [setProfileAnnotation].
  - cbn [fst snd app setProfileAnnotation].
    rewrite Hk, Hv, !String.eqb_refl. reflexivity.
  - destruct (String.eqb (ann_Key a) K) eqn:Ea.
    + cbn [fst snd setProfileAnnotation].
      destruct (String.eqb (ann_Value a) profile) eqn:Eav; cbn [negb].
      * rewrite Ea, Eav. reflexivity.
      * cbn [ann_Key ann_Value ann_with_Value]. rewrite Ea, String.eqb_refl. reflexivity.
    + destruct (setProfileAnnotation K profile l) as [l' found]. cbn [fst snd] in *.
      destruct found; cbn [setProfileAnnotation app]; rewrite Ea, IH; reflexivity.
Qed.

(** X17. [SetEvalClusterId] is idempotent: applied again to the request it
    returned, at the same time and in the same state of the store and of
    the random source, it returns that request unchanged. *)
Theorem SetEvalClusterId_idempotent (AnnotationProfileKey : string)
    (k : connectorNamespaceService) (db : Store) (now : Time) (seed : nat)
    (request request' : ConnectorNamespace) :
  SetEvalClusterId AnnotationProfileKey k db now seed request = (request', None) ->
  SetEvalClusterId AnnotationProfileKey k db now seed request' = (request', None).
Proof.
  destruct (eval_cluster_ids (ConnectorEvalOrganizations (connectorsConfig k)) db)
    as [e|l] eqn:El; [discriminate|].
  rewrite !(SetEvalClusterId_shape AnnotationProfileKey k db now seed _ l El).
  destruct l as [|id l']; [discriminate|].
  intros [= <-]. f_equal.
  unfold allocated at 1. cbn [ns_ID ns_DeletedAt ns_Name ns_Owner ns_Version
    ns_TenantUserId ns_TenantOrganisationId ns_Status ns_TenantUser
    ns_TenantOrganisation ns_Annotations allocated].
  rewrite setProfileAnnotation_fixed by reflexivity.
  reflexivity.
Qed.

(** The loop changes at most the first annotation under the key. *)
Lemma setProfileAnnotation_others (K profile : string)
    (anns : list ConnectorNamespaceAnnotation) (i : nat)
    (a : ConnectorNamespaceAnnotation) :
  nth_error anns i = Some a ->
  (ann_Key a <> K \/
   exists j b, (j < i)%nat /\ nth_error anns j = Some b /\ ann_Key b = K) ->
  nth_error (fst (setProfileAnnotation K profile anns)) i = Some a.
Proof.
  revert i. induction anns as [|x l IH]; intros i Hi Hwhy; [destruct i; discriminate|].
  cbn [setProfileAnnotation].
  destruct (String.eqb (ann_Key x) K) eqn:Ex.
  - cbn [fst]. destruct i as [|i]; [|exact Hi].
    injection Hi as ->. apply String.eqb_eq in Ex.
    destruct Hwhy as [Hne|[j [b [Hj _]]]]; [contradiction | lia].
  - destruct (setProfileAnnotation K profile l) as [l' found] eqn:El. cbn [fst] in *.
    destruct i as [|i]; [exact Hi|]. cbn [nth_error] in *.
    apply IH; [assumption|].
    destruct Hwhy as [Hne|[j [b [Hj [Hb Hk]]]]]; [auto|]. right.
    destruct j as [|j].
    + injection Hb as ->. apply String.eqb_neq in Ex. contradiction.
    + exists j, b. split; [lia | auto].
Qed.

(** X18. A successful [SetEvalClusterId] changes nothing of the request
    but its cluster, its expiration and its annotations; it removes no
    annotation and moves none; an annotation under another key keeps its
    value, and so does an annotation under the quota-profile key that
    comes after another one under that key: only the first is
    overwritten. *)
Theorem SetEvalClusterId_keeps_annotations (AnnotationProfileKey : string)
    (k : connectorNamespaceService) (db : Store) (now : Time) (seed : nat)
    (request request' : ConnectorNamespace) :
  SetEvalClusterId AnnotationProfileKey k db now seed request = (request', None) ->
  ns_with_ClusterId (ns_ClusterId request)
    (ns_with_Expiration (ns_Expiration request)
       (ns_with_Annotations (ns_Annotations request) request')) = request /\
  (length (ns_Annotations request) <= length (ns_Annotations request')
   <= S (length (ns_Annotations request)))%nat /\
  (forall i a,
     nth_error (ns_Annotations request) i = Some a ->
     (ann_Key a <> AnnotationProfileKey \/
      exists j b, (j < i)%nat /\ nth_error (ns_Annotations request) j = Some b /\
                  ann_Key b = AnnotationProfileKey) ->
     nth_error (ns_Annotations request') i = Some a).
Proof.
  destruct (eval_cluster_ids (ConnectorEvalOrganizations (connectorsConfig k)) db)
    as [e|l] eqn:El; [discriminate|].
  rewrite (SetEvalClusterId_shape AnnotationProfileKey k db now seed _ l El).
  destruct l as [|id l']; [discriminate|].
  intros [= <-]. split; [destruct request; reflexivity|].
  cbn [allocated ns_Annotations].
  set (p := EvalNamespaceQuotaProfile (quotaConfig k)).
  assert (Hlen : length (fst (setProfileAnnotation AnnotationProfileKey p
                                (ns_Annotations request)))
                 = length (ns_Annotations request)).
  { induction (ns_Annotations request) as [|a l0 IH]; cbn [setProfileAnnotation];
      [reflexivity|].
    destruct (String.eqb (ann_Key a) AnnotationProfileKey); [reflexivity|].
    destruct (setProfileAnnotation AnnotationProfileKey p l0). cbn [fst length] in *.
    now rewrite IH. }
  split.
  - destruct (snd _); [rewrite Hlen; lia | rewrite length_app, Hlen; simpl; lia].
  - intros i a Hi Hwhy.
    pose proof (setProfileAnnotation_others AnnotationProfileKey p _ i a Hi Hwhy) as Hkeep.
    destruct (snd _); [exact Hkeep|].
    rewrite nth_error_app1; [exact Hkeep|].
    rewrite Hlen. apply nth_error_Some. rewrite Hi. discriminate.
Qed.

(* ===================================================================== *)
(** ** How eviction, cascade and sweep compose *)
(* ===================================================================== *)

Lemma GetExpiredNamespaceIds_shape (k : connectorNamespaceService) (now : Time) (db : Store) :
  GetExpiredNamespaceIds k now db
  = (List.map ns_ID (List.filter (expired now) (scoped db)), None, evicted now db).
Proof. reflexivity. Qed.

Lemma filter_map_commute {A} (f : A -> bool) (g : A -> A) (l : list A) :
  (forall x, f (g x) = f x) ->
  List.filter f (List.map g l) = List.map g (List.filter f l).
Proof.
  intros Hfg. induction l as [|x l IH]; simpl; [reflexivity|].
  rewrite Hfg. destruct (f x); simpl; now rewrite IH.
Qed.

Lemma map_update_id {A} (key : A -> string) (c : A -> bool) (g : A -> A) (l : list A) :
  (forall x, key (g x) = key x) ->
  List.map key (List.map (fun r => if c r then g r else r) l) = List.map key l.
Proof.
  intros Hk. rewrite map_map. apply map_ext. intros r. destruct (c r); auto.
Qed.

Lemma update_twice {A} (c : A -> bool) (g : A -> A) (l : list A) :
  (forall x, c (g x) = c x) -> (forall x, g (g x) = g x) ->
  List.map (fun r => if c r then g r else r) (List.map (fun r => if c r then g r else r) l)
  = List.map (fun r => if c r then g r else r) l.
Proof.
  intros Hc Hg. rewrite map_map. apply map_ext. intros r.
  destruct (c r) eqn:E; [rewrite Hc, E; apply Hg | rewrite E; reflexivity].
Qed.

Lemma scoped_evicted_expired (now : Time) (db : Store) :
  List.map ns_ID (List.filter (expired now) (scoped (evicted now db)))
  = List.map ns_ID (List.filter (expired now) (scoped db)).
Proof.
  unfold evicted, scoped. cbn [table ConnectorNamespace_schema connector_namespaces
    with_connector_namespaces deleted_at].
  set (ids := List.map ns_ID
                (List.filter (expired now)
                   (List.filter (fun r => is_null (ns_DeletedAt r))
                      (connector_namespaces db)))).
  rewrite !(filter_map_commute _ (fun r => if is_null (ns_DeletedAt r) && IN (ns_ID r) ids
                                           then ns_with_Phase ConnectorNamespacePhaseDeleting r
                                           else r)).
  - unfold ids. apply map_update_id. reflexivity.
  - intros r. destruct (andb _ _); reflexivity.
  - intros r. destruct (andb _ _); reflexivity.
Qed.

(** X19. [GetExpiredNamespaceIds] does not look at the phase: called again
    at the same time it returns the same ids, the namespaces it already
    put in phase "deleting" among them, and changes nothing more. *)
Theorem GetExpiredNamespaceIds_again (k : connectorNamespaceService) (now : Time)
    (db : Store) :
  let first := GetExpiredNamespaceIds k now db in
  GetExpiredNamespaceIds k now (snd first) = (fst (fst first), None, snd first).
Proof.
  cbv zeta. rewrite !GetExpiredNamespaceIds_shape. cbn [fst snd].
  rewrite scoped_evicted_expired. f_equal.
  unfold evicted at 1. rewrite scoped_evicted_expired.
  unfold evicted, with_connector_namespaces.
  cbn [connector_namespaces connector_namespace_annotations connector_tenant_users
       connector_tenant_organisations connector_clusters connectors connector_statuses
       connector_deployment_statuses].
  f_equal. apply update_twice.
  - intros r. reflexivity.
  - intros r. reflexivity.
Qed.

Section cascade_composition.

Variable ConnectorEnableUnassignedConnectors : ConnectorsConfig -> bool.
Variable k : connectorNamespaceService.
Variable ctx : db.Context.
Variable dbConn : Store.
Variable query : Condition ConnectorNamespace.
Variable values : list Value.

(** The store a cascading deletion leaves is one of three. *)
Lemma cascade_store_cases :
  let db' := snd (DeleteNamespaceAndConnectorDeployments
                    ConnectorEnableUnassignedConnectors k ctx dbConn query values) in
  db' = dbConn \/
  exists cond,
    db' = with_connector_namespaces (marked_namespaces dbConn cond) dbConn \/
    db' = cascade_store ConnectorEnableUnassignedConnectors k dbConn cond.
Proof.
  cbv zeta. destruct (Where query [values]) as [err|cond] eqn:Hbound.
  - left.
    rewrite (cascade_unbound ConnectorEnableUnassignedConnectors k ctx dbConn query
               values err Hbound).
    reflexivity.
  - rewrite (cascade_shape ConnectorEnableUnassignedConnectors k ctx dbConn query
               values cond Hbound).
    destruct (found_namespaces dbConn cond); [auto|]. right. exists cond.
    destruct (found_connectors dbConn cond); auto.
Qed.

(** X20. A cascading deletion removes nothing and detaches nothing: it
    leaves clusters, annotations and tenants alone, soft-deletes no row,
    and every connector keeps its namespace.  So a connector it sets to
    "unassigned" is still attached to the namespace being deleted. *)
Theorem cascade_keeps_rows :
  let db' := snd (DeleteNamespaceAndConnectorDeployments
                    ConnectorEnableUnassignedConnectors k ctx dbConn query values) in
  connector_clusters db' = connector_clusters dbConn /\
  connector_namespace_annotations db' = connector_namespace_annotations dbConn /\
  connector_tenant_users db' = connector_tenant_users dbConn /\
  List.map (fun ns => (ns_ID ns, ns_DeletedAt ns, ns_ClusterId ns, ns_Expiration ns))
           (connector_namespaces db')
  = List.map (fun ns => (ns_ID ns, ns_DeletedAt ns, ns_ClusterId ns, ns_Expiration ns))
             (connector_namespaces dbConn) /\
  List.map (fun c => (c_ID c, c_DeletedAt c, c_NamespaceId c)) (connectors db')
  = List.map (fun c => (c_ID c, c_DeletedAt c, c_NamespaceId c)) (connectors dbConn) /\
  List.map (fun s => (cs_ID s, cs_DeletedAt s, cs_NamespaceID s)) (connector_statuses db')
  = List.map (fun s => (cs_ID s, cs_DeletedAt s, cs_NamespaceID s))
             (connector_statuses dbConn).
Proof.
  pose proof cascade_store_cases as Hc. cbv zeta in *.
  assert (Hns : forall cond,
             List.map (fun ns => (ns_ID ns, ns_DeletedAt ns, ns_ClusterId ns,
                                  ns_Expiration ns)) (marked_namespaces dbConn cond)
             = List.map (fun ns => (ns_ID ns, ns_DeletedAt ns, ns_ClusterId ns,
                                    ns_Expiration ns)) (connector_namespaces dbConn)).
  { intros cond. unfold marked_namespaces. rewrite map_map. apply map_ext. intros r.
    destruct (andb _ _); reflexivity. }
  destruct Hc as [-> | [cond [-> | ->]]].
  - repeat split.
  - cbn. repeat split. apply Hns.
  - unfold cascade_store. cbn [connector_clusters connector_namespace_annotations
      connector_tenant_users connector_namespaces connectors connector_statuses].
    repeat split; try apply Hns;
      rewrite map_map; apply map_ext; intros r; destruct (andb _ _); reflexivity.
Qed.

(** X21. A cascading deletion frees no quota: a connector it marks still
    counts, so [CheckConnectorQuota] answers after it as it did before, for
    every namespace. *)
Theorem cascade_keeps_quota (AnnotationProfileKey : string)
    (k' : connectorNamespaceService) (namespaceId : string) :
  let db' := snd (DeleteNamespaceAndConnectorDeployments
                    ConnectorEnableUnassignedConnectors k ctx dbConn query values) in
  CheckConnectorQuota AnnotationProfileKey k' db' namespaceId
  = CheckConnectorQuota AnnotationProfileKey k' dbConn namespaceId.
Proof.
  pose proof cascade_store_cases as Hc. cbv zeta in *.
  destruct Hc as [-> | [cond [-> | ->]]]; [reflexivity | reflexivity |].
  unfold CheckConnectorQuota, First, Count, scoped.
  cbn [table ConnectorNamespaceAnnotation_schema Connector_schema
       connector_namespace_annotations connectors cascade_store deleted_at].
  set (upd := fun r : Connector =>
                if is_null (c_DeletedAt r) &&
                   (is_null (c_DeletedAt r) && IN (c_ID r) (connectorIds dbConn cond))
                then c_with_DesiredState
                       (connectorDesiredState ConnectorEnableUnassignedConnectors k) r
                else r).
  assert (Hlen : forall f : Connector -> bool,
             (forall x, f (upd x) = f x) ->
             length (List.filter f (List.filter (fun r => is_null (c_DeletedAt r))
                                      (List.map upd (connectors dbConn))))
             = length (List.filter f (List.filter (fun r => is_null (c_DeletedAt r))
                                        (connectors dbConn)))).
  { intros f Hf.
    rewrite (filter_map_commute (fun r => is_null (c_DeletedAt r)) upd)
      by (intros x; unfold upd; destruct (andb _ _); reflexivity).
    rewrite (filter_map_commute f upd) by exact Hf.
    apply length_map. }
  rewrite Hlen; [reflexivity|].
  intros x. unfold upd. destruct (andb _ _); reflexivity.
Qed.

End cascade_composition.

(** A namespace whose row is soft-deleted is no record of the store, under
    the primary key. *)
Lemma soft_deleted_not_stored (db : Store) (i : nat) (r0 : ConnectorNamespace) :
  namespace_ids_unique db ->
  nth_error (connector_namespaces db) i = Some r0 -> ns_DeletedAt r0 <> None ->
  forall r, stored db r -> ns_ID r <> ns_ID r0.
Proof.
  intros Huniq Hi Hdel r [Hin Hlive] Hid.
  assert (r = r0).
  { apply (unique_key_row ns_ID (connector_namespaces db)); auto.
    apply nth_error_In with i. assumption. }
  subst r. contradiction.
Qed.

(** X22. Eviction followed by the sweep removes an expired namespace that
    has no live connector status: its row ends soft-deleted in phase
    "deleting"; from then on [Get] fails for its id, and
    [GetExpiredNamespaceIds] no longer lists it, at any time. *)
Theorem evict_then_sweep (k : connectorNamespaceService) (now now' : Time) (db : Store)
    (i : nat) (ns : ConnectorNamespace) (t : Time) :
  namespace_ids_unique db ->
  nth_error (connector_namespaces db) i = Some ns ->
  ns_DeletedAt ns = None -> ns_ID ns <> "" ->
  ns_Expiration ns = Some t -> t < now ->
  (forall s, In s (connector_statuses db) -> cs_DeletedAt s = None ->
             cs_NamespaceID s <> Some (ns_ID ns)) ->
  let db1 := snd (GetExpiredNamespaceIds k now db) in
  let db2 := snd (ReconcileDeletingNamespaces k now' db1) in
  nth_error (connector_namespaces db2) i
  = Some (ns_with_DeletedAt (Some now')
            (ns_with_Phase ConnectorNamespacePhaseDeleting ns)) /\
  Get k db2 (ns_ID ns) = (None, Some errors.GeneralError) /\
  forall now'', ~ In (ns_ID ns) (fst (fst (GetExpiredNamespaceIds k now'' db2))).
Proof.
  intros Huniq Hi Hlive Hid He Ht Hnone db1 db2.
  assert (Hin : In ns (connector_namespaces db)) by (apply nth_error_In with i; assumption).
  set (ns1 := ns_with_Phase ConnectorNamespacePhaseDeleting ns).
  (* after the eviction *)
  assert (Hdb1 : db1 = evicted now db) by reflexivity.
  assert (Hi1 : nth_error (connector_namespaces db1) i = Some ns1).
  { rewrite Hdb1. unfold evicted. cbn [connector_namespaces with_connector_namespaces].
    updated_row Hi. rewrite Hlive. cbn [is_null andb].
    assert (Hsel : IN (ns_ID ns) (List.map ns_ID (List.filter (expired now) (scoped db)))
                   = true).
    { apply IN_In, in_map, filter_In. split.
      - apply In_scoped. split; assumption.
      - apply expired_iff. eauto. }
    rewrite Hsel. reflexivity. }
  assert (Huniq1 : namespace_ids_unique db1).
  { rewrite Hdb1. unfold namespace_ids_unique, evicted.
    cbn [connector_namespaces with_connector_namespaces].
    rewrite map_update_id by reflexivity. exact Huniq. }
  assert (Hsw : sweepable db1 ns1).
  { split; [reflexivity|]. split; [exact Hlive|]. exact Hnone. }
  (* after the sweep *)
  assert (Hdb2 : db2 = swept now' db1).
  { unfold db2. rewrite reconcile_shape.
    destruct (sweep_ids db1) eqn:E; [|reflexivity].
    exfalso. assert (Hx : In (ns_ID ns1) (sweep_ids db1)).
    { apply In_sweep_ids. exists ns1. split; [apply nth_error_In with i; assumption|].
      split; [assumption | reflexivity]. }
    rewrite E in Hx. destruct Hx. }
  assert (Hi2 : nth_error (connector_namespaces db2) i
                = Some (ns_with_DeletedAt (Some now') ns1)).
  { rewrite Hdb2. unfold swept. cbn [connector_namespaces with_connector_namespaces].
    updated_row Hi1.
    assert (Hsel : is_null (ns_DeletedAt ns1) && IN (ns_ID ns1) (sweep_ids db1) = true).
    { apply sweep_selects; [assumption | apply nth_error_In with i; assumption | assumption]. }
    rewrite Hsel. reflexivity. }
  assert (Huniq2 : namespace_ids_unique db2).
  { rewrite Hdb2. unfold namespace_ids_unique, swept.
    cbn [connector_namespaces with_connector_namespaces].
    rewrite map_update_id by reflexivity. exact Huniq1. }
  assert (Hgone : forall r, stored db2 r -> ns_ID r <> ns_ID ns).
  { apply (soft_deleted_not_stored db2 i (ns_with_DeletedAt (Some now') ns1));
      [assumption | assumption | discriminate]. }
  split; [exact Hi2|]. split.
  - unfold Get. rewrite First_none; [reflexivity|].
    intros r Hr. destruct (primary_key_cond (ns_ID ns) r) eqn:E; [|reflexivity].
    apply primary_key_cond_eq in E; [|assumption]. exfalso. exact (Hgone r Hr E).
  - intros now'' Hlisted. rewrite GetExpiredNamespaceIds_shape in Hlisted.
    cbn [fst] in Hlisted. apply in_map_iff in Hlisted as [r [Hr Hin']].
    apply filter_In in Hin' as [Hin' _]. apply In_scoped in Hin'.
    exact (Hgone r Hin' Hr).
Qed.

Section cascade_twice.

Variable ConnectorEnableUnassignedConnectors : ConnectorsConfig -> bool.
Variable k : connectorNamespaceService.
Variable dbConn : Store.
Variable query : Condition ConnectorNamespace.
Variable values : list Value.
Variable cond : ConnectorNamespace -> bool.

(** The condition binds, to a predicate that does not look at the phase of
    a namespace. *)
Hypothesis query_placeholder : placeholders query = 1%nat.
Hypothesis query_denotes : denotes query [values] = Some cond.
Hypothesis query_ignores_phase :
  forall ns p, cond (ns_with_Phase p ns) = cond ns.

Abbreviation mark :=
  (fun r => if is_null (ns_DeletedAt r) && IN (ns_ID r) (namespaceIds dbConn cond)
            then ns_with_Phase ConnectorNamespacePhaseDeleting r else r).

Lemma query_bound : Where query [values] = inr cond.
Proof using query_placeholder query_denotes.
  unfold Where. cbn [length]. rewrite query_placeholder, query_denotes. reflexivity.
Qed.

Lemma found_namespaces_marked (db1 : Store) :
  connector_namespaces db1 = marked_namespaces dbConn cond ->
  found_namespaces db1 cond = List.map mark (found_namespaces dbConn cond) /\
  namespaceIds db1 cond = namespaceIds dbConn cond /\
  marked_namespaces db1 cond = connector_namespaces db1.
Proof using query_ignores_phase.
  intros Hns.
  assert (Hf : found_namespaces db1 cond = List.map mark (found_namespaces dbConn cond)).
  { unfold found_namespaces, scoped. simpl table. rewrite Hns. unfold marked_namespaces.
    rewrite (filter_map_commute (fun r => is_null (ns_DeletedAt r)) mark)
      by (intros r; destruct (andb _ _); reflexivity).
    rewrite (filter_map_commute cond mark); [reflexivity|].
    intros r. destruct (andb _ _); [apply query_ignores_phase | reflexivity]. }
  assert (Hids : namespaceIds db1 cond = namespaceIds dbConn cond).
  { unfold namespaceIds. rewrite Hf. apply map_update_id. reflexivity. }
  split; [exact Hf|]. split; [exact Hids|].
  unfold marked_namespaces at 1. rewrite Hids, Hns. unfold marked_namespaces.
  apply update_twice; intros r; reflexivity.
Qed.

(** X23. A cascading deletion that deletes connectors is idempotent: the
    same call again, on a condition that binds and does not look at the
    phase, matches the same namespaces, finds no connector left to mark,
    returns (true, false, nil), schedules nothing and changes nothing. *)
Theorem cascade_again (ctx : db.Context) :
  ConnectorEnableUnassignedConnectors (connectorsConfig k) = false ->
  (exists ns, matched dbConn cond ns) ->
  let first := DeleteNamespaceAndConnectorDeployments ConnectorEnableUnassignedConnectors
                 k ctx dbConn query values in
  DeleteNamespaceAndConnectorDeployments ConnectorEnableUnassignedConnectors k
    (snd (fst first)) (snd first) query values
  = (true, false, None, snd (fst first), snd first).
Proof using query_placeholder query_denotes query_ignores_phase.
  intros Hflag [ns0 Hns0]. cbv zeta.
  apply In_found_namespaces in Hns0.
  rewrite (cascade_shape ConnectorEnableUnassignedConnectors k ctx dbConn query values
             cond query_bound).
  destruct (found_namespaces dbConn cond) as [|r0 rs] eqn:Hfn; [destruct Hns0|].
  destruct (found_connectors dbConn cond) as [|c0 cs] eqn:Hfc; cbn [fst snd].
  - (* no connector was found the first time *)
    set (db1 := with_connector_namespaces (marked_namespaces dbConn cond) dbConn).
    destruct (found_namespaces_marked db1 eq_refl) as [Hf [Hids Hm]].
    rewrite (cascade_shape _ _ _ _ _ _ cond query_bound), Hf, Hfn. cbn [List.map].
    assert (Hnone : found_connectors db1 cond = []).
    { unfold found_connectors. rewrite Hids. exact Hfc. }
    rewrite Hnone, Hm. reflexivity.
  - (* connectors were marked "deleted" the first time *)
    set (db1 := cascade_store ConnectorEnableUnassignedConnectors k dbConn cond).
    destruct (found_namespaces_marked db1 eq_refl) as [Hf [Hids Hm]].
    rewrite (cascade_shape _ _ _ _ _ _ cond query_bound), Hf, Hfn. cbn [List.map].
    assert (Hnone : found_connectors db1 cond = []).
    { unfold found_connectors. rewrite Hids. apply filter_nil_iff.
      intros c' Hc'. apply In_scoped in Hc' as [Hin Hlive].
      simpl in Hin, Hlive. apply in_map_iff in Hin as [c [Hc Hin]].
      destruct (is_null (c_DeletedAt c) &&
                (is_null (c_DeletedAt c) && IN (c_ID c) (connectorIds dbConn cond)))
        eqn:Ec; subst c'.
      - unfold connectorDesiredState. rewrite Hflag. simpl.
        apply andb_false_r.
      - match goal with |- ?b = false => destruct b eqn:Ep; [|reflexivity] end.
        exfalso.
        assert (Hfound : In c (found_connectors dbConn cond)).
        { unfold found_connectors. apply filter_In. split; [|exact Ep].
          apply In_scoped. split; assumption. }
        assert (Hid : IN (c_ID c) (connectorIds dbConn cond) = true).
        { apply IN_In. unfold connectorIds. apply in_map. assumption. }
        simpl in Hlive. rewrite Hlive, Hid in Ec. discriminate. }
    rewrite Hnone, Hm. reflexivity.
Qed.

(** X24. Where connectors are set to "unassigned" instead, the same call
    again is no no-op: the connectors are still attached and not
    "deleted", so it cascades once more, returns (true, true, nil) and
    schedules the notifications a second time. *)
Theorem cascade_unassigned_again (ctx : db.Context) :
  ConnectorEnableUnassignedConnectors (connectorsConfig k) = true ->
  (exists c, cascaded dbConn cond c) ->
  let first := DeleteNamespaceAndConnectorDeployments ConnectorEnableUnassignedConnectors
                 k ctx dbConn query values in
  exists ctx2 db2,
    DeleteNamespaceAndConnectorDeployments ConnectorEnableUnassignedConnectors k
      (snd (fst first)) (snd first) query values
    = (true, true, None, ctx2, db2) /\
    length (db.postCommitActions ctx2) = S (S (length (db.postCommitActions ctx))).
Proof using query_placeholder query_denotes query_ignores_phase.
  intros Hflag Hex. cbv zeta.
  rewrite (cascade_result ConnectorEnableUnassignedConnectors k ctx dbConn query values
             cond query_bound Hex).
  cbn [fst snd]. destruct Hex as [c0 Hc0].
  set (db1 := cascade_store ConnectorEnableUnassignedConnectors k dbConn cond).
  destruct (found_namespaces_marked db1 eq_refl) as [Hf [Hids Hm]].
  assert (Hns : found_namespaces db1 cond <> []).
  { rewrite Hf. destruct Hc0 as [_ [_ [ns [Hm0 _]]]].
    apply In_found_namespaces in Hm0.
    destruct (found_namespaces dbConn cond); [destruct Hm0 | discriminate]. }
  assert (Hcs : found_connectors db1 cond <> []).
  { pose proof (In_connectorIds dbConn cond c0 Hc0) as Hid. apply IN_In in Hid.
    destruct Hc0 as [[Hin Hlive] [Hd [ns [Hm0 Hnsid]]]]. simpl in Hin, Hlive.
    apply (filter_not_nil _ _ (c_with_DesiredState ConnectorUnassigned c0)).
    - apply In_scoped. split; [|exact Hlive]. simpl.
      apply in_map_iff. exists c0. split; [|assumption].
      rewrite Hlive, Hid. unfold connectorDesiredState. rewrite Hflag. reflexivity.
    - rewrite Hids. cbn [c_NamespaceId c_DesiredState c_with_DesiredState].
      rewrite Hnsid. apply andb_true_iff. split; [|reflexivity].
      apply IN_nullable_In. exists (ns_ID ns). split; [reflexivity|].
      apply In_namespaceIds. eauto. }
  rewrite (cascade_shape _ _ _ _ _ _ cond query_bound).
  destruct (found_namespaces db1 cond); [contradiction|].
  destruct (found_connectors db1 cond); [contradiction|].
  eexists _, _. split; [reflexivity|].
  cbn [db.postCommitActions]. rewrite !length_app. simpl. lia.
Qed.

End cascade_twice.

(* ===================================================================== *)
(** ** The further properties at work on the small fleet *)
(* ===================================================================== *)

Lemma fleet_ns1_stored : stored fleet.store fleet.ns1.
Proof. split; [left; reflexivity | reflexivity]. Defined.

(** ns-1 comes back with its tenant user alice. *)
Lemma Get_loads_record_witness :
  exists r,
    Get fleet.service fleet.store "ns-1" = (Some r, None) /\
    ns_TenantUser r = Some {| tu_ID := "alice" |}.
Proof.
  destruct (Get_loads_record fleet.service fleet.store fleet.ns1 fleet_ids_unique
              fleet_ns1_stored) as (r & Heq & _ & _ & Hu); [discriminate|].
  exists r. split; [exact Heq|]. apply Hu; [reflexivity | left; reflexivity].
Defined.

(** What [Get] returns for ns-2 is the live row ns-2. *)
Lemma Get_returns_stored_witness :
  ns_DeletedAt (Preload fleet.store fleet.ns2) = None /\
  ns_ID (Preload fleet.store fleet.ns2) = "ns-2".
Proof.
  destruct (Get_returns_stored fleet.service fleet.store "ns-2"
              (Preload fleet.store fleet.ns2) None eq_refl) as (_ & Hlive & Hid & _).
  split; [exact Hlive | apply Hid; discriminate].
Defined.

(** The empty id: [Get] answers with a namespace, [GetNamespaceTenant]
    with an error. *)
Lemma Get_empty_id_witness :
  (exists ns, stored fleet.store ns /\
              Get fleet.service fleet.store "" = (Some (Preload fleet.store ns), None)) /\
  exists e, GetNamespaceTenant fleet.service fleet.store "" = (None, Some e).
Proof.
  destruct (Get_empty_id fleet.service fleet.store fleet.ns1 fleet_ns1_stored) as [H1 H2].
  split; [exact H1|]. apply H2. intros ns [Hin _]. simpl in Hin.
  destruct Hin as [<-|[<-|[<-|[]]]]; discriminate.
Defined.

(** The tenant of ns-1 is alice; the name does not come back. *)
Lemma GetNamespaceTenant_projection_witness :
  exists r,
    GetNamespaceTenant fleet.service fleet.store "ns-1" = (Some r, None) /\
    ns_TenantUserId r = Some "alice" /\ ns_Name r = "".
Proof.
  destruct (GetNamespaceTenant_projection fleet.service fleet.store fleet.ns1
              fleet_ids_unique fleet_ns1_stored)
    as (r & Heq & _ & Hu & _ & _ & Hname & _).
  exists r. split; [exact Heq|]. split; [exact Hu | exact Hname].
Defined.

Lemma fleet_search_parsed (page size : Z) :
  listing.Search (fleet_listing.args page size) <> "" /\
  fleet_listing.Parse (listing.Search (fleet_listing.args page size))
  = inr fleet_listing.owned.
Proof. split; [discriminate | reflexivity]. Defined.

Lemma fleet_order_permutes (o : list string)
    (sort : list ConnectorNamespace -> list ConnectorNamespace)
    (l : list ConnectorNamespace) :
  fleet_listing.ordered o = Some sort -> Permutation (sort l) l.
Proof.
  unfold fleet_listing.ordered. destruct (forallb _ o); [|discriminate].
  intros [= <-]. apply Permutation_refl.
Defined.

Lemma fleet_order_by_name (page size : Z) :
  fleet_listing.ordered (order_clauses (fleet_listing.args page size))
  = Some (fun rows => rows).
Proof. reflexivity. Defined.

(** Two namespaces are listed and a size of ten is clamped to two; with an
    order-by clause the engine does not know, the listing fails. *)
Lemma List_paging_meta_witness :
  (exists rows meta,
     listing.List fleet_listing.Parse fleet_listing.ordered true fleet.service fleet.store
       [] (fleet_listing.args 1 10) 0 = (rows, Some meta, None) /\
     listing.pm_Total meta = 2 /\ listing.pm_Size meta = 2) /\
  listing.List fleet_listing.Parse fleet_listing.ordered true fleet.service fleet.store
    [] {| listing.Page := 1; listing.Size := 10; listing.Search := "owner = 'owner'";
          listing.OrderBy := ["no_such_column ASC"] |} 0
  = ([], None, Some (listing.Failed errors.GeneralError)).
Proof.
  split.
  - destruct (proj2 (List_paging_meta fleet_listing.Parse fleet_listing.ordered true
                       fleet.service fleet.store [] (fleet_listing.args 1 10) 0
                       fleet_listing.owned (or_intror (fleet_search_parsed 1 10))))
      as (rows & meta & Heq & _ & Ht & Hs); [discriminate|].
    exists rows, meta. split; [exact Heq|].
    assert (Htotal : listing.pm_Total meta = 2) by (rewrite Ht; vm_compute; reflexivity).
    split; [exact Htotal|]. rewrite Hs, Htotal. reflexivity.
  - destruct (List_paging_meta fleet_listing.Parse fleet_listing.ordered true
                fleet.service fleet.store []
                {| listing.Page := 1; listing.Size := 10;
                   listing.Search := "owner = 'owner'";
                   listing.OrderBy := ["no_such_column ASC"] |} 0
                fleet_listing.owned) as [Hfails _].
    + right. split; [discriminate | reflexivity].
    + apply Hfails. reflexivity.
Defined.

(** Listing cluster-a gives ns-1, a namespace of cluster-a. *)
Lemma List_rows_selected_witness :
  exists ns,
    Preload fleet.store fleet.ns1 = Preload fleet.store ns /\ stored fleet.store ns /\
    In (ns_ClusterId ns) ["cluster-a"].
Proof.
  destruct (List_rows_selected fleet_listing.Parse fleet_listing.ordered true
              fleet.service fleet.store ["cluster-a"] (fleet_listing.args 1 10) 0
              fleet_listing.owned (Preload fleet.store fleet.ns1)
              fleet_order_permutes (or_intror (fleet_search_parsed 1 10)))
    as (ns & Heq & Hst & Hc & _).
  - vm_compute. left. reflexivity.
  - exists ns. split; [exact Heq|]. split; [exact Hst|]. apply Hc. discriminate.
Defined.

(** The second page of size one holds at most one row. *)
Lemma List_page_slice_witness :
  exists rows meta,
    listing.List fleet_listing.Parse fleet_listing.ordered true fleet.service fleet.store
      [] (fleet_listing.args 2 1) 0 = (rows, Some meta, None) /\
    Z.of_nat (length rows) <= listing.pm_Size meta.
Proof.
  destruct (List_page_slice fleet_listing.Parse fleet_listing.ordered true fleet.service
              fleet.store [] (fleet_listing.args 2 1) 0 fleet_listing.owned
              (fun rows => rows) (fleet_order_by_name 2 1)
              (fun l => Permutation_refl l) (or_intror (fleet_search_parsed 2 1)))
    as (rows & meta & Heq & _ & Hlen & _);
    [simpl; lia | simpl; lia | simpl; lia |].
  exists rows, meta. split; [exact Heq | exact Hlen].
Defined.

(** Page -3 is the first page. *)
Lemma List_page_below_one_witness :
  fst (fst (listing.List fleet_listing.Parse fleet_listing.ordered true fleet.service
              fleet.store [] (fleet_listing.args (-3) 1) 0))
  = fst (fst (listing.List fleet_listing.Parse fleet_listing.ordered true fleet.service
                fleet.store [] (fleet_listing.args 1 1) 0)).
Proof.
  apply (List_page_below_one fleet_listing.Parse fleet_listing.ordered true fleet.service
           fleet.store [] (fleet_listing.args (-3) 1) 0 fleet_listing.owned
           (or_intror (fleet_search_parsed (-3) 1))); simpl; lia.
Defined.


Lemma shelf_catalog_loaded :
  catalog.ReadFiles shelf.env ["more"; "catalog"]
  = inr [shelf.entry "http"; shelf.entry "log"; shelf.entry "sink"].
Proof. vm_compute. reflexivity. Defined.

(** The three types come out by ascending id. *)
Lemma ReadFiles_sorted_witness :
  StronglySorted id_lt [shelf.entry "http"; shelf.entry "log"; shelf.entry "sink"] /\
  NoDup ["http"; "log"; "sink"].
Proof.
  exact (ReadFiles_sorted shelf.env ["more"; "catalog"] _ shelf_catalog_loaded).
Defined.

(** The sub-directory "drafts" and the file ".index" contribute nothing. *)
Lemma ReadFiles_loads_visible_files_witness :
  Permutation [shelf.entry "http"; shelf.entry "log"; shelf.entry "sink"]
              [shelf.entry "http"; shelf.entry "sink"; shelf.entry "log"] /\
  Forall (dir_readable shelf.env) ["more"; "catalog"].
Proof.
  exact (ReadFiles_loads_visible_files shelf.env ["more"; "catalog"] _
           shelf_catalog_loaded).
Defined.

(** "sink" is defined in "catalog" and again in "extra". *)
Lemma ReadFiles_duplicate_type_witness :
  exists err, catalog.ReadFiles shelf.env ["catalog"; "extra"] = inl err.
Proof.
  apply (ReadFiles_duplicate_type shelf.env ["catalog"; "extra"]).
  change (~ NoDup ["sink"; "log"; "sink"]).
  intros Hnd. apply NoDup_cons in Hnd as [Hnin _]. apply Hnin.
  right. left.
Defined.

Lemma shelf_readable : Forall (dir_readable shelf.env) ["catalog"; "more"].
Proof.
  repeat constructor.
  - eexists. split; [reflexivity|]. repeat constructor; eexists; reflexivity.
  - eexists. split; [reflexivity|]. repeat constructor; eexists; reflexivity.
Defined.

(** "catalog" and "more" load. *)
Lemma ReadFiles_succeeds_witness :
  exists values,
    catalog.ReadFiles shelf.env ["catalog"; "more"] = inr values /\
    Permutation values [shelf.entry "sink"; shelf.entry "log"; shelf.entry "http"].
Proof.
  apply (ReadFiles_succeeds shelf.env ["catalog"; "more"] shelf_readable).
  change (NoDup ["sink"; "log"; "http"]).
  apply (bool_decide_unpack _). vm_compute. exact I.
Defined.

(** "catalog" before "more", or after it: the same catalog. *)
Lemma ReadFiles_order_independent_witness :
  [shelf.entry "http"; shelf.entry "log"; shelf.entry "sink"]
  = [shelf.entry "http"; shelf.entry "log"; shelf.entry "sink"] /\
  catalog.ReadFiles shelf.env ["catalog"; "more"]
  = catalog.ReadFiles shelf.env ["more"; "catalog"].
Proof.
  assert (Hother : catalog.ReadFiles shelf.env ["catalog"; "more"]
                   = inr [shelf.entry "http"; shelf.entry "log"; shelf.entry "sink"])
    by (vm_compute; reflexivity).
  split.
  - apply (ReadFiles_order_independent shelf.env ["more"; "catalog"] ["catalog"; "more"]);
      [apply perm_swap | exact shelf_catalog_loaded | exact Hother].
  - rewrite Hother, shelf_catalog_loaded. reflexivity.
Defined.

(** ns-3 has no annotation at all. *)
Lemma CheckConnectorQuota_no_annotation_witness :
  CheckConnectorQuota fleet.profile_key fleet.service fleet.store "ns-3"
  = Some errors.FailedToCheckQuota.
Proof.
  apply (CheckConnectorQuota_no_annotation fleet.profile_key fleet.service fleet.store
           "ns-3").
  intros a Hin Hn. simpl in Hin. destruct Hin as [<-|[<-|[]]]; discriminate Hn.
Defined.

(** A new configuration names no evaluation organisation. *)
Lemma no_eval_organisations_witness :
  SetEvalClusterId fleet.profile_key
    {| connectorsConfig := NewConnectorsConfig; quotaConfig := quotaConfig fleet.service |}
    fleet.store 500 7 fleet.ns2 = (fleet.ns2, Some errors.Unauthorized) /\
  CanCreateEvalNamespace
    {| connectorsConfig := NewConnectorsConfig; quotaConfig := quotaConfig fleet.service |}
    fleet.store "alice" = None.
Proof.
  apply (no_eval_organisations fleet.profile_key
           {| connectorsConfig := NewConnectorsConfig;
              quotaConfig := quotaConfig fleet.service |}
           fleet.store 500 7 fleet.ns2 "alice").
  reflexivity.
Defined.

(** Placing the placed request again changes nothing. *)
Lemma SetEvalClusterId_idempotent_witness :
  SetEvalClusterId fleet.profile_key fleet.service fleet.store 500 7
    (fst (SetEvalClusterId fleet.profile_key fleet.service fleet.store 500 7 fleet.ns2))
  = (fst (SetEvalClusterId fleet.profile_key fleet.service fleet.store 500 7 fleet.ns2),
     None).
Proof.
  apply (SetEvalClusterId_idempotent fleet.profile_key fleet.service fleet.store 500 7
           fleet.ns2).
  vm_compute. reflexivity.
Defined.

(** An annotation under the key "team" stays first and keeps its value. *)
Lemma SetEvalClusterId_keeps_annotations_witness :
  nth_error
    (ns_Annotations
       (fst (SetEvalClusterId fleet.profile_key fleet.service fleet.store 500 7
               (ns_with_Annotations
                  [{| ann_NamespaceId := "ns-2"; ann_Key := "team"; ann_Value := "a" |};
                   {| ann_NamespaceId := "ns-2"; ann_Key := "profile";
                      ann_Value := "old" |}]
                  fleet.ns2)))) 0
  = Some {| ann_NamespaceId := "ns-2"; ann_Key := "team"; ann_Value := "a" |}.
Proof.
  destruct (SetEvalClusterId_keeps_annotations fleet.profile_key fleet.service
              fleet.store 500 7
              (ns_with_Annotations
                 [{| ann_NamespaceId := "ns-2"; ann_Key := "team"; ann_Value := "a" |};
                  {| ann_NamespaceId := "ns-2"; ann_Key := "profile";
                     ann_Value := "old" |}]
                 fleet.ns2)
              _ eq_refl) as (_ & _ & Hkeep).
  apply Hkeep; [reflexivity | left; discriminate].
Defined.

(** With its connector status gone, ns-1 is evicted at 200 and swept at
    300. *)
Lemma evict_then_sweep_witness :
  nth_error
    (connector_namespaces
       (snd (ReconcileDeletingNamespaces fleet.service 300
               (snd (GetExpiredNamespaceIds fleet.service 200
                       (with_connector_statuses [] fleet.store)))))) 0
  = Some (ns_with_DeletedAt (Some 300)
            (ns_with_Phase ConnectorNamespacePhaseDeleting fleet.ns1)).
Proof.
  apply (evict_then_sweep fleet.service 200 300 (with_connector_statuses [] fleet.store)
           0 fleet.ns1 100).
  - exact fleet_ids_unique.
  - reflexivity.
  - reflexivity.
  - discriminate.
  - reflexivity.
  - lia.
  - intros s [].
Defined.

Lemma id_is_ns1_ignores_phase (ns : ConnectorNamespace) (p : string) :
  fleet.id_is_ns1 (ns_with_Phase p ns) = fleet.id_is_ns1 ns.
Proof. reflexivity. Defined.

(** Deleting ns-1 a second time reports no cascade and changes nothing. *)
Lemma cascade_again_witness :
  DeleteNamespaceAndConnectorDeployments ConnectorDisableCascadeDelete fleet.service
    (snd (fst (DeleteNamespaceAndConnectorDeployments ConnectorDisableCascadeDelete
                 fleet.service db.background fleet.store fleet.by_id ["ns-1"])))
    (snd (DeleteNamespaceAndConnectorDeployments ConnectorDisableCascadeDelete
            fleet.service db.background fleet.store fleet.by_id ["ns-1"]))
    fleet.by_id ["ns-1"]
  = (true, false, None,
     snd (fst (DeleteNamespaceAndConnectorDeployments ConnectorDisableCascadeDelete
                 fleet.service db.background fleet.store fleet.by_id ["ns-1"])),
     snd (DeleteNamespaceAndConnectorDeployments ConnectorDisableCascadeDelete
            fleet.service db.background fleet.store fleet.by_id ["ns-1"])).
Proof.
  apply (cascade_again ConnectorDisableCascadeDelete fleet.service fleet.store
           fleet.by_id ["ns-1"] fleet.id_is_ns1
           (proj1 fleet_by_id_bound) (proj2 fleet_by_id_bound) id_is_ns1_ignores_phase
           db.background eq_refl (ex_intro _ fleet.ns1 fleet_ns1_matched)).
Defined.

(** Where connectors are unassigned, deleting ns-1 twice cascades twice. *)
Lemma cascade_unassigned_again_witness :
  exists ctx2 db2,
    DeleteNamespaceAndConnectorDeployments ConnectorDisableCascadeDelete
      fleet.unassigning_service
      (snd (fst (DeleteNamespaceAndConnectorDeployments ConnectorDisableCascadeDelete
                   fleet.unassigning_service db.background fleet.store
                   fleet.by_id ["ns-1"])))
      (snd (DeleteNamespaceAndConnectorDeployments ConnectorDisableCascadeDelete
              fleet.unassigning_service db.background fleet.store fleet.by_id ["ns-1"]))
      fleet.by_id ["ns-1"]
    = (true, true, None, ctx2, db2) /\
    length (db.postCommitActions ctx2) = 2%nat.
Proof.
  apply (cascade_unassigned_again ConnectorDisableCascadeDelete fleet.unassigning_service
           fleet.store fleet.by_id ["ns-1"] fleet.id_is_ns1
           (proj1 fleet_by_id_bound) (proj2 fleet_by_id_bound) id_is_ns1_ignores_phase
           db.background eq_refl (ex_intro _ fleet.c1 fleet_c1_cascaded)).
Defined.
